(** * Twisted Recaman sequence: a model of [seq.py] and its properties

    The Python program is embedded function by function:
    - Python [int] is [Z] (unbounded);
    - Python [float] and [numpy.float64] are IEEE-754 binary64 values,
      taken from the Standard Library's executable specification
      [SpecFloat] at precision 53 and maximal exponent 1024;
    - a Python exception is a value of [exn] carried by [result];
    - the file written by [save_obj] lives in a map from paths to contents. *)

From Stdlib Require Import ZArith Lia SpecFloat.
From stdpp Require Import base list list_numbers gmap strings pretty.

#[local] Open Scope Z_scope.

(* ===================================================================== *)
(** * Part I: the program                                                 *)
(* ===================================================================== *)

(** ** Exceptions *)

Inductive exn : Type :=
  | IndexError
  | ZeroDivisionError
  | OverflowError
  | ValueError.

Inductive result (A : Type) : Type :=
  | Ok (a : A)
  | Raise (e : exn).
Arguments Ok {A} a.
Arguments Raise {A} e.

#[global] Instance result_ret : MRet result := fun A a => Ok a.

#[global] Instance result_bind : MBind result := fun A B k r =>
  match r with
  | Ok a => k a
  | Raise e => Raise e
  end.

(** ** SequenceGenerator: [recemans_sequence] *)

(** One turn of the loop body of [recemans_sequence]: the state is the pair
    [(a, seq)] of the running value and the list built so far. *)
Definition recemans_step (st : Z * list Z) (i : Z) : Z * list Z :=
  let '(a, seq) := st in
  let a' := if (a - i <? 0) || bool_decide (a - i ∈ seq) then a + i else a - i in
  (a', seq ++ [a']).

(** [for i in range(1, n)] visits [1, ..., n-1]; the range is empty for
    [n <= 1]. *)
Definition recemans_sequence (n : Z) : list Z :=
  snd (fold_left recemans_step (seqZ 1 (n - 1)) (0, [0])).

(** ** Floating point (binary64) *)

Definition float : Type := spec_float.

Definition prec : Z := 53.
Definition emax : Z := 1024.

Definition fadd : float → float → float := SFadd prec emax.
Definition fsub : float → float → float := SFsub prec emax.
Definition fmul : float → float → float := SFmul prec emax.
Definition fdiv : float → float → float := SFdiv prec emax.
Definition fsqrt : float → float := SFsqrt prec emax.
Definition fopp : float → float := SFopp.
Definition fabs : float → float := SFabs.

Definition fzero : float := S754_zero false.
Definition fnan : float := S754_nan.
(** 0.5, 1.0 and 2.0 *)
Definition fhalf : float := S754_finite false 4503599627370496 (-53).
Definition fone : float := S754_finite false 4503599627370496 (-52).
Definition ftwo : float := S754_finite false 4503599627370496 (-51).
(** [np.pi], the double 3.141592653589793 = 0x400921FB54442D18 *)
Definition np_pi : float := S754_finite false 7074237752028440 (-51).

Definition is_zero (x : float) : bool :=
  match x with S754_zero _ => true | _ => false end.

Definition is_finite (x : float) : bool :=
  match x with S754_zero _ | S754_finite _ _ _ => true | _ => false end.

(** Conversion of a Python [int] to [float] (implicit in mixed arithmetic,
    explicit in [float(k)]): round to nearest even, and [OverflowError]
    ("int too large to convert to float") past the largest double. *)
Definition float_of_int (z : Z) : result float :=
  match binary_normalize prec emax z 0 false with
  | S754_infinity _ => Raise OverflowError
  | x => Ok x
  end.

(** [int(x)]: truncation toward zero; [OverflowError] on an infinity and
    [ValueError] on a NaN. *)
Definition int_of_float (x : float) : result Z :=
  match x with
  | S754_nan => Raise ValueError
  | S754_infinity _ => Raise OverflowError
  | S754_zero _ => Ok 0
  | S754_finite s m e =>
      Ok (cond_Zopp s (if 0 <=? e then Z.shiftl (Z.pos m) e
                       else Z.shiftr (Z.pos m) (- e)))
  end.

(** [x / y] on Python floats raises [ZeroDivisionError] on a zero divisor;
    numpy's division ([fdiv]) does not. *)
Definition py_truediv (x y : float) : result float :=
  if is_zero y then Raise ZeroDivisionError else Ok (fdiv x y).

(** ** Lists *)

(** [l[i]] with Python's negative indices. *)
Definition py_getitem {A : Type} (l : list A) (i : Z) : result A :=
  let j := if i <? 0 then i + Z.of_nat (length l) else i in
  if j <? 0 then Raise IndexError
  else match l !! Z.to_nat j with
       | Some x => Ok x
       | None => Raise IndexError
       end.

(** [min(l)] and [max(l)] of a non-empty list. *)
Definition py_min (l : list Z) : Z := foldr Z.min (default 0 (head l)) l.
Definition py_max (l : list Z) : Z := foldr Z.max (default 0 (head l)) l.

(** A loop that appends one computed element per turn and stops at the first
    exception. *)
Fixpoint for_each {A B : Type} (f : A → result B) (l : list A)
  : result (list B) :=
  match l with
  | [] => Ok []
  | x :: l' => y ← f x; ys ← for_each f l'; mret (y :: ys)
  end.

(** ** Points and matrices *)

Record vec3 : Type := Vec3 { c0 : float; c1 : float; c2 : float }.
Record mat3 : Type := Mat3 { row0 : vec3; row1 : vec3; row2 : vec3 }.

Definition vec_add (a b : vec3) : vec3 :=
  Vec3 (fadd (c0 a) (c0 b)) (fadd (c1 a) (c1 b)) (fadd (c2 a) (c2 b)).
Definition vec_sub (a b : vec3) : vec3 :=
  Vec3 (fsub (c0 a) (c0 b)) (fsub (c1 a) (c1 b)) (fsub (c2 a) (c2 b)).
Definition vec_div (a : vec3) (s : float) : vec3 :=
  Vec3 (fdiv (c0 a) s) (fdiv (c1 a) s) (fdiv (c2 a) s).

(** [np.dot] of two vectors, the products summed in index order. *)
Definition np_dot (a b : vec3) : float :=
  fadd (fadd (fmul (c0 a) (c0 b)) (fmul (c1 a) (c1 b))) (fmul (c2 a) (c2 b)).

Definition np_cross (a b : vec3) : vec3 :=
  Vec3 (fsub (fmul (c1 a) (c2 b)) (fmul (c2 a) (c1 b)))
       (fsub (fmul (c2 a) (c0 b)) (fmul (c0 a) (c2 b)))
       (fsub (fmul (c0 a) (c1 b)) (fmul (c1 a) (c0 b))).

(** [np.linalg.norm] of a vector: [sqrt(dot(x, x))]. *)
Definition np_norm (a : vec3) : float := fsqrt (np_dot a a).

Definition col0 (m : mat3) : vec3 := Vec3 (c0 (row0 m)) (c0 (row1 m)) (c0 (row2 m)).
Definition col1 (m : mat3) : vec3 := Vec3 (c1 (row0 m)) (c1 (row1 m)) (c1 (row2 m)).
Definition col2 (m : mat3) : vec3 := Vec3 (c2 (row0 m)) (c2 (row1 m)) (c2 (row2 m)).

(** [c.dot(R)] for a vector [c] and a matrix [R] *)
Definition vec_mat (c : vec3) (m : mat3) : vec3 :=
  Vec3 (np_dot c (col0 m)) (np_dot c (col1 m)) (np_dot c (col2 m)).

(** [A.dot(B)] for two matrices *)
Definition mat_mul (a b : mat3) : mat3 :=
  Mat3 (vec_mat (row0 a) b) (vec_mat (row1 a) b) (vec_mat (row2 a) b).

Definition mat_add (a b : mat3) : mat3 :=
  Mat3 (vec_add (row0 a) (row0 b)) (vec_add (row1 a) (row1 b))
       (vec_add (row2 a) (row2 b)).

Definition vec_map (f : float → float) (a : vec3) : vec3 :=
  Vec3 (f (c0 a)) (f (c1 a)) (f (c2 a)).
Definition mat_map (f : float → float) (a : mat3) : mat3 :=
  Mat3 (vec_map f (row0 a)) (vec_map f (row1 a)) (vec_map f (row2 a)).

Definition np_identity3 : mat3 :=
  Mat3 (Vec3 fone fzero fzero) (Vec3 fzero fone fzero) (Vec3 fzero fzero fone).

Definition vec_all (P : float → bool) (a : vec3) : bool :=
  P (c0 a) && P (c1 a) && P (c2 a).
Definition mat_all (P : float → bool) (m : mat3) : bool :=
  vec_all P (row0 m) && vec_all P (row1 m) && vec_all P (row2 m).

(** ** RotationSolver: [rotation_matrix_from_vectors] *)

Definition rotation_matrix_from_vectors (a b : vec3) : mat3 :=
  let v := np_cross a b in
  let c := np_dot a b in
  let vx := Mat3 (Vec3 fzero (fopp (c2 v)) (c1 v))
                 (Vec3 (c2 v) fzero (fopp (c0 v)))
                 (Vec3 (fopp (c1 v)) (c0 v) fzero) in
  mat_add (mat_add np_identity3 vx)
          (mat_map (λ x, fdiv (fmul x fone) (fadd fone c)) (mat_mul vx vx)).

(** The mesh: vertices, and faces as triples of 1-based vertex indices. *)
Definition face : Type := (Z * Z * Z)%type.
Definition mesh : Type := (list vec3 * list face)%type.

(** The face loop of [tube_along_curve]; [m] is [len(points)]. *)
Definition unravel (n offset i j u v : Z) : Z :=
  (i + u) * n + (j + v) `mod` n + 1 + offset.

Definition tube_faces (m n offset : Z) : list face :=
  i ← seqZ 0 (m - 1);
  j ← seqZ 0 n;
  let a := unravel n offset i j 0 0 in
  let b := unravel n offset i j 1 0 in
  let c := unravel n offset i j 1 1 in
  let d := unravel n offset i j 0 1 in
  [(a, c, b); (a, d, c)].

(** The ring of vertices placed at [p] for the tangent [q - p]:
    lines 65-69 (and 71-75) of the source. *)
Definition ring (circle : list vec3) (p : vec3) (tangent : vec3) : list vec3 :=
  let v := vec_div tangent (np_norm tangent) in
  let R := rotation_matrix_from_vectors v (Vec3 fzero fzero fone) in
  (λ c, vec_add p (vec_mat c R)) <$> circle.

(** [for i in range(1, len(points))]: one ring per consecutive pair, placed
    at the earlier point. *)
Fixpoint rings (circle : list vec3) (points : list vec3) : list vec3 :=
  match points with
  | p0 :: (p1 :: _) as rest => ring circle p0 (vec_sub p1 p0) ++ rings circle rest
  | _ => []
  end.

(** ** MeshWriter: [save_obj] *)

Definition file_system : Type := gmap string string.

Definition newline : string := String (Ascii.ascii_of_nat 10) EmptyString.

(** The parsed command line. *)
Record args : Type := Args {
  arg_n : Z;
  arg_twist_factor : float;
  arg_arc_resolution : Z;
  arg_tube_radius : float;
  arg_tube_resolution : Z;
  arg_number_axis : bool;
  arg_number_axis_radius : float;
  arg_output : string
}.

Section Program.
(** [np.cos] and [np.sin] are the platform's; the text Python prints for a
    float is likewise left to the platform. *)
Variable np_cos np_sin : float → float.
Variable str_float : float → string.

(** *** ArcInterpolator: [interpolate_arcs] *)

(** The body of the loop, for sample index [i]. *)
Definition arc_point (a0 a1 : Z) (start_twist_degree twist_factor : float)
    (u r : float) (k : Z) (flipped : bool) (i : Z) : result vec3 :=
  let t := if flipped then k - i else i in
  fk ← float_of_int k;
  ft ← float_of_int t;
  q ← py_truediv ft fk;
  let deg := fmul np_pi (fsub fone q) in
  let z := fadd (fmul r (np_cos deg)) u in
  let h := fabs (fmul r (np_sin deg)) in
  fd ← float_of_int (a1 - a0);
  fk' ← float_of_int k;
  q' ← py_truediv fd fk';
  fi ← float_of_int i;
  fa0 ← float_of_int a0;
  let s := fadd (fadd (fmul q' fi) fa0) start_twist_degree in
  let x := fmul h (np_cos (fmul s twist_factor)) in
  let y := fmul h (np_sin (fmul s twist_factor)) in
  mret (Vec3 x y z).

Definition interpolate_arcs (a0 a1 : Z)
    (start_twist_degree twist_factor : float) (resolution : Z)
  : result (list vec3) :=
  fs ← float_of_int (a0 + a1);
  let u := fmul fhalf fs in
  fd ← float_of_int (Z.abs (a1 - a0));
  let r := fmul fhalf fd in
  fres ← float_of_int resolution;
  k ← int_of_float (fmul (fmul ftwo r) fres);
  let flipped := bool_decide (a1 < a0) in
  for_each (arc_point a0 a1 start_twist_degree twist_factor u r k flipped)
           (seqZ 0 k).

(** *** TubeExtruder: [circle_xy] and [tube_along_curve] *)

Definition circle_xy (radius : float) (resolution : Z) : result (list vec3) :=
  let n := resolution in
  let r := radius in
  for_each (λ i,
      fi ← float_of_int i;
      fn ← float_of_int n;
      q ← py_truediv fi fn;
      let d := fmul (fmul q ftwo) np_pi in
      mret (Vec3 (fmul r (np_cos d)) (fmul r (np_sin d)) fzero))
    (seqZ 0 n).

Definition tube_along_curve (points : list vec3) (radius : float)
    (resolution : Z) (vertex_index_offset : Z) : result mesh :=
  circle ← circle_xy radius resolution;
  let n := resolution in
  let vertex_list := rings circle points in
  p_last ← py_getitem points (-1);
  p_prev ← py_getitem points (-2);
  let vertex_list := vertex_list ++ ring circle p_last (vec_sub p_last p_prev) in
  let face_list := tube_faces (Z.of_nat (length points)) n vertex_index_offset in
  mret (vertex_list, face_list).

(** *** MeshWriter: [save_obj] *)

Definition vertex_line (v : vec3) : string :=
  "v " +:+ str_float (c0 v) +:+ " " +:+ str_float (c1 v) +:+ " "
       +:+ str_float (c2 v) +:+ newline.

Definition face_line (f : face) : string :=
  let '(a, b, c) := f in
  "f " +:+ pretty a +:+ " " +:+ pretty b +:+ " " +:+ pretty c
       +:+ newline.

(** [open(filename, 'w')] creates the file or truncates it; the path is
    taken to be writable. *)
Definition save_obj (filename : string) (vertex_list : list vec3)
    (face_list : list face) (fs : file_system) : file_system :=
  <[filename := String.concat "" (vertex_line <$> vertex_list)
                +:+ String.concat "" (face_line <$> face_list)]> fs.

(** *** The pipeline: [main], after the arguments are parsed *)

(** Lines 120-123: the arcs of all consecutive pairs, concatenated. *)
Definition build_curve (seq : list Z) (twist_factor : float)
    (arc_resolution : Z) : result (list vec3) :=
  arcs ← for_each (λ i,
      start_twist_degree ←
        (if bool_decide (i `mod` 2 = 0) then Ok fzero
         else py_truediv np_pi twist_factor);
      s0 ← py_getitem seq (i - 1);
      s1 ← py_getitem seq i;
      interpolate_arcs s0 s1 start_twist_degree twist_factor arc_resolution)
    (seqZ 1 (Z.of_nat (length seq) - 1));
  mret (concat arcs).

(** Lines 119-131. The two end points of the number axis are arrays of
    [dtype=np.float], the alias of Python's [float] (binary64). *)
Definition build_mesh (a : args) : result mesh :=
  let seq := recemans_sequence (arg_n a) in
  curve ← build_curve seq (arg_twist_factor a) (arg_arc_resolution a);
  '(vertex_list, face_list) ←
    tube_along_curve curve (arg_tube_radius a) (arg_tube_resolution a) 0;
  if arg_number_axis a then
    zmin ← float_of_int (py_min seq);
    zmax ← float_of_int (py_max seq);
    '(axis_vertices, axis_faces) ←
      tube_along_curve [Vec3 fzero fzero zmin; Vec3 fzero fzero zmax]
        (arg_number_axis_radius a) (arg_tube_resolution a)
        (Z.of_nat (length vertex_list));
    mret (vertex_list ++ axis_vertices, face_list ++ axis_faces)
  else mret (vertex_list, face_list).

Definition main (a : args) (fs : file_system) : result file_system :=
  '(vertex_list, face_list) ← build_mesh a;
  mret (save_obj (arg_output a) vertex_list face_list fs).

End Program.

(** ** Reference values *)

(** The double that holds the integer [z] exactly, for [|z| < 2^53]: the
    mantissa is shifted up to 53 bits. *)
Definition exact_float (z : Z) : float :=
  match z with
  | 0 => S754_zero false
  | _ => let l := Z.log2 (Z.abs z) in
         S754_finite (z <? 0) (Z.to_pos (Z.abs z * 2 ^ (52 - l))) (l - 52)
  end.

(** A vertex whose coordinates are all NaN. *)
Definition nan_vertex : vec3 := Vec3 fnan fnan fnan.

(** The three indices of a face lie in [[lo, hi]]. *)
Definition face_in_range (lo hi : Z) (f : face) : Prop :=
  let '(a, b, c) := f in lo ≤ a ≤ hi ∧ lo ≤ b ≤ hi ∧ lo ≤ c ≤ hi.

(** [r] returns, or raises the exception [e] and no other. *)
Definition only_raises {A : Type} (e : exn) (r : result A) : Prop :=
  match r with
  | Ok _ => True
  | Raise e' => e' = e
  end.

(** The three indices of a face are pairwise distinct. *)
Definition face_distinct (f : face) : Prop :=
  let '(a, b, c) := f in a ≠ b ∧ b ≠ c ∧ a ≠ c.

(** The vertex index [v] is one of the three indices of the face. *)
Definition face_has (v : Z) (f : face) : Prop :=
  let '(a, b, c) := f in v = a ∨ v = b ∨ v = c.

(** One of the coordinates is a NaN. *)
Definition has_nan (a : vec3) : Prop :=
  c0 a = fnan ∨ c1 a = fnan ∨ c2 a = fnan.

(** A stand-in for the platform's [cos] and [sin], by Taylor polynomials
    evaluated in binary64; it is used only to run the model on examples. *)
Fixpoint horner (coeffs : list float) (y : float) : float :=
  match coeffs with
  | [] => fzero
  | c :: cs => fadd c (fmul y (horner cs y))
  end.

Definition inv_factorial (k : Z) : float :=
  fdiv (if Z.even (k `div` 2) then fone else fopp fone)
       (binary_normalize prec emax (foldr Z.mul 1 (seqZ 1 k)) 0 false).

Definition taylor_cos (x : float) : float :=
  horner ((λ k, inv_factorial (2 * k)) <$> seqZ 0 16) (fmul x x).

Definition taylor_sin (x : float) : float :=
  fmul x (horner ((λ k, inv_factorial (2 * k + 1)) <$> seqZ 0 16) (fmul x x)).

(** A stand-in for the text Python prints for a float: sign, mantissa and
    binary exponent. *)
Definition str_float_hex (x : float) : string :=
  match x with
  | S754_zero s => if s then "-0.0" else "0.0"
  | S754_infinity s => if s then "-inf" else "inf"
  | S754_nan => "nan"
  | S754_finite s m e =>
      (if s then "-" else "") +:+ pretty (Z.pos m) +:+ "p" +:+ pretty e
  end.

(* ===================================================================== *)
(** * Part II: properties                                                 *)
(* ===================================================================== *)

(** ** Binary64 arithmetic on small integers is exact *)

Lemma digits2_pos_size (p : positive) : digits2_pos p = Pos.size p.
Proof. induction p; simpl; congruence. Qed.

Lemma Zdigits2_log2 (z : Z) : 0 < z → Zdigits2 z = Z.log2 z + 1.
Proof.
  destruct z as [|p|p]; try lia. intros _. simpl.
  rewrite digits2_pos_size. destruct p; simpl; lia.
Qed.

Lemma iter_pos_nat {A : Type} (f : A → A) (p : positive) (x : A) :
  SpecFloat.iter_pos f p x = Nat.iter (Pos.to_nat p) f x.
Proof.
  revert x. induction p as [p IH|p IH|]; intros x.
  - rewrite Pos2Nat.inj_xI. cbn [SpecFloat.iter_pos]. rewrite !IH.
    rewrite Nat.iter_succ_r.
    replace (2 * Pos.to_nat p)%nat with (Pos.to_nat p + Pos.to_nat p)%nat by lia.
    by rewrite Nat.iter_add.
  - rewrite Pos2Nat.inj_xO. cbn [SpecFloat.iter_pos]. rewrite !IH.
    replace (2 * Pos.to_nat p)%nat with (Pos.to_nat p + Pos.to_nat p)%nat by lia.
    by rewrite Nat.iter_add.
  - done.
Qed.

Lemma shr_1_even (m : Z) :
  0 < m →
  shr_1 (Build_shr_record (m * 2) false false) = Build_shr_record m false false.
Proof. destruct m as [|p|p]; try lia. intros _. by rewrite Z.mul_comm. Qed.

Lemma shr_exact (m e n : Z) :
  0 < m → 0 ≤ n →
  shr (Build_shr_record (m * 2 ^ n) false false) e n
  = (Build_shr_record m false false, e + n).
Proof.
  intros Hm Hn. destruct n as [|p|p]; try lia.
  - simpl. by rewrite Z.mul_1_r, Z.add_0_r.
  - unfold shr. f_equal. rewrite iter_pos_nat.
    rewrite <- (positive_nat_Z p).
    induction (Pos.to_nat p) as [|k IH].
    + simpl. by rewrite Z.mul_1_r.
    + rewrite Nat.iter_succ_r. rewrite Nat2Z.inj_succ, Z.pow_succ_r by lia.
      replace (m * (2 * 2 ^ Z.of_nat k)) with (m * 2 ^ Z.of_nat k * 2) by lia.
      rewrite shr_1_even by nia. done.
Qed.

(** Rounding a value [M * 2^n] whose mantissa [M] already has 53 bits. *)
Lemma binary_round_aux_exact (s : bool) (M e n : Z) :
  2 ^ 52 ≤ M < 2 ^ 53 → 0 ≤ n → -1074 ≤ e + n ≤ 971 →
  binary_round_aux prec emax s (M * 2 ^ n) e loc_Exact
  = S754_finite s (Z.to_pos M) (e + n).
Proof.
  intros HM Hn He.
  assert (HlogM : Z.log2 M = 52) by (apply Z.log2_unique; lia).
  unfold binary_round_aux, shr_fexp.
  rewrite Zdigits2_log2 by nia.
  rewrite Z.log2_mul_pow2 by lia. rewrite HlogM.
  unfold shr_record_of_loc.
  replace (fexp prec emax (n + 52 + 1 + e) - e) with n
    by (unfold fexp, emin, prec, emax; lia).
  rewrite shr_exact by lia. cbn [shr_m loc_of_shr_record round_nearest_even].
  rewrite Zdigits2_log2 by lia. rewrite HlogM.
  replace (fexp prec emax (52 + 1 + (e + n)) - (e + n)) with 0
    by (unfold fexp, emin, prec, emax; lia).
  cbn [shr shr_m]. destruct M as [|p|p]; try lia.
  replace (e + n <=? emax - prec) with true
    by (symmetry; apply Z.leb_le; unfold prec, emax; lia).
  done.
Qed.

Lemma pos_iter_xO (p d : positive) :
  Z.pos (Pos.iter xO p d) = Z.pos p * 2 ^ Z.pos d.
Proof.
  rewrite <- Z.shiftl_mul_pow2 by lia. unfold Z.shiftl.
  by rewrite (Pos.iter_swap_gen _ _ Z.pos xO (Z.mul 2)).
Qed.

Lemma shl_align_low (p : positive) (e e' : Z) :
  e' ≤ e → shl_align p e e' = (Z.to_pos (Z.pos p * 2 ^ (e - e')), e').
Proof.
  intros He. unfold shl_align.
  destruct (e' - e) as [|d|d] eqn:Hd; try lia.
  - replace (e - e') with 0 by lia. replace e' with e by lia.
    by rewrite Z.mul_1_r.
  - replace (e - e') with (Z.pos d) by lia. rewrite <- pos_iter_xO. done.
Qed.

Lemma log2_small (z : Z) : 0 < z < 2 ^ 53 → 0 ≤ Z.log2 z ≤ 52.
Proof.
  intros Hz. split; [apply Z.log2_nonneg|].
  assert (Z.log2 z < 53) by (apply Z.log2_lt_pow2; lia). lia.
Qed.

Lemma normalized_mantissa (z : Z) :
  0 < z < 2 ^ 53 → 2 ^ 52 ≤ z * 2 ^ (52 - Z.log2 z) < 2 ^ 53.
Proof.
  intros Hz. pose proof (log2_small z Hz) as Hl.
  pose proof (Z.log2_spec z ltac:(lia)) as [Hlo Hhi].
  assert (Hp : 0 < 2 ^ (52 - Z.log2 z)) by (apply Z.pow_pos_nonneg; lia).
  replace (2 ^ 52) with (2 ^ Z.log2 z * 2 ^ (52 - Z.log2 z))
    by (rewrite <- Z.pow_add_r by lia; f_equal; lia).
  replace (2 ^ 53) with (2 ^ Z.succ (Z.log2 z) * 2 ^ (52 - Z.log2 z))
    by (rewrite <- Z.pow_add_r by lia; f_equal; lia).
  split; nia.
Qed.

Lemma binary_round_small (s : bool) (p : positive) :
  Z.pos p < 2 ^ 53 →
  binary_round prec emax s p 0
  = S754_finite s (Z.to_pos (Z.pos p * 2 ^ (52 - Z.log2 (Z.pos p))))
                (Z.log2 (Z.pos p) - 52).
Proof.
  intros Hp. pose proof (log2_small (Z.pos p) ltac:(lia)) as Hl.
  pose proof (normalized_mantissa (Z.pos p) ltac:(lia)) as HM.
  unfold binary_round.
  change (Z.pos (digits2_pos p)) with (Zdigits2 (Z.pos p)).
  rewrite Zdigits2_log2 by lia.
  replace (fexp prec emax (Z.log2 (Z.pos p) + 1 + 0)) with (Z.log2 (Z.pos p) - 52)
    by (unfold fexp, emin, prec, emax; lia).
  rewrite shl_align_low by lia.
  replace (0 - (Z.log2 (Z.pos p) - 52)) with (52 - Z.log2 (Z.pos p)) by lia.
  rewrite Z2Pos.id by lia.
  pose proof (binary_round_aux_exact s _ (Z.log2 (Z.pos p) - 52) 0 HM) as Hr.
  rewrite Z.pow_0_r, Z.mul_1_r, Z.add_0_r in Hr. apply Hr; lia.
Qed.

Lemma binary_normalize_small (z : Z) :
  Z.abs z < 2 ^ 53 → binary_normalize prec emax z 0 false = exact_float z.
Proof.
  intros Hz. destruct z as [|p|p]; [done| |]; simpl in Hz.
  - apply binary_round_small. lia.
  - apply (binary_round_small true). lia.
Qed.

Lemma float_of_int_small (z : Z) :
  Z.abs z < 2 ^ 53 → float_of_int z = Ok (exact_float z).
Proof.
  intros Hz. unfold float_of_int. rewrite binary_normalize_small by done.
  by destruct z.
Qed.

Lemma exact_float_is_zero (z : Z) : is_zero (exact_float z) = bool_decide (z = 0).
Proof. by destruct z. Qed.

Lemma int_of_float_exact (z : Z) :
  Z.abs z < 2 ^ 53 → int_of_float (exact_float z) = Ok z.
Proof.
  intros Hz. destruct z as [|p|p]; [done| |]; simpl in Hz.
  all: pose proof (log2_small (Z.pos p) ltac:(lia)) as Hl.
  all: pose proof (normalized_mantissa (Z.pos p) ltac:(lia)) as HM.
  all: unfold exact_float, int_of_float; cbv zeta.
  all: change (Z.abs _) with (Z.pos p).
  all: rewrite Z2Pos.id by lia.
  all: destruct (Z.leb_spec 0 (Z.log2 (Z.pos p) - 52)).
  all: try (replace (Z.log2 (Z.pos p) - 52) with 0 by lia;
            replace (52 - Z.log2 (Z.pos p)) with 0 by lia;
            rewrite Z.shiftl_0_r, Z.mul_1_r; done).
  all: rewrite Z.shiftr_div_pow2 by lia.
  all: replace (- (Z.log2 (Z.pos p) - 52)) with (52 - Z.log2 (Z.pos p)) by lia.
  all: rewrite Z.div_mul by (apply Z.pow_nonzero; lia); done.
Qed.

(** Scaling a normal double by 0.5 or by 2.0 moves its exponent. *)
Lemma fmul_pow2 (j : Z) (s : bool) (m : positive) (e : Z) :
  2 ^ 52 ≤ Z.pos m < 2 ^ 53 → -1074 ≤ e + j ≤ 971 →
  fmul (S754_finite false 4503599627370496 (j - 52)) (S754_finite s m e)
  = S754_finite s m (e + j).
Proof.
  intros Hm He. unfold fmul, SFmul.
  replace (Z.pos (4503599627370496 * m)) with (Z.pos m * 2 ^ 52) by lia.
  rewrite binary_round_aux_exact by lia.
  simpl. f_equal. lia.
Qed.

Lemma fmul_two_half_exact (d : Z) :
  0 ≤ d < 2 ^ 53 →
  fmul ftwo (fmul fhalf (exact_float d)) = exact_float d.
Proof.
  intros Hd. destruct d as [|p|p]; [done| |lia].
  pose proof (log2_small (Z.pos p) ltac:(lia)) as Hl.
  pose proof (normalized_mantissa (Z.pos p) ltac:(lia)) as HM.
  unfold exact_float; cbv zeta. change (Z.abs _) with (Z.pos p).
  change fhalf with (S754_finite false 4503599627370496 (-1 - 52)).
  rewrite fmul_pow2 by (rewrite ?Z2Pos.id; lia).
  change ftwo with (S754_finite false 4503599627370496 (1 - 52)).
  rewrite fmul_pow2 by (rewrite ?Z2Pos.id; lia).
  f_equal. lia.
Qed.

Lemma fmul_exact (a b : Z) :
  0 ≤ a → 0 ≤ b → a * b < 2 ^ 53 →
  fmul (exact_float a) (exact_float b) = exact_float (a * b).
Proof.
  intros Ha Hb Hab.
  destruct (decide (a = 0)) as [->|Ha0]; [by destruct b|].
  destruct (decide (b = 0)) as [->|Hb0]; [rewrite Z.mul_0_r; by destruct a|].
  assert (Ha' : 0 < a < 2 ^ 53) by nia.
  assert (Hb' : 0 < b < 2 ^ 53) by nia.
  assert (Hab' : 0 < a * b < 2 ^ 53) by nia.
  pose proof (log2_small _ Ha'). pose proof (log2_small _ Hb').
  pose proof (log2_small _ Hab').
  pose proof (normalized_mantissa _ Ha'). pose proof (normalized_mantissa _ Hb').
  pose proof (normalized_mantissa _ Hab').
  pose proof (Z.log2_mul_below a b ltac:(lia) ltac:(lia)).
  set (la := Z.log2 a) in *. set (lb := Z.log2 b) in *.
  set (lab := Z.log2 (a * b)) in *.
  assert (Ea : exact_float a = S754_finite false (Z.to_pos (a * 2 ^ (52 - la))) (la - 52)).
  { destruct a; try lia. done. }
  assert (Eb : exact_float b = S754_finite false (Z.to_pos (b * 2 ^ (52 - lb))) (lb - 52)).
  { destruct b; try lia. done. }
  assert (Eab : exact_float (a * b)
                = S754_finite false (Z.to_pos (a * b * 2 ^ (52 - lab))) (lab - 52)).
  { destruct (a * b) eqn:E; try lia. unfold exact_float. cbv zeta.
    rewrite Z.abs_eq by lia. done. }
  rewrite Ea, Eb, Eab. unfold fmul, SFmul.
  rewrite Pos2Z.inj_mul, !Z2Pos.id by lia.
  replace (a * 2 ^ (52 - la) * (b * 2 ^ (52 - lb)))
    with (a * b * 2 ^ (52 - lab) * 2 ^ (52 + lab - la - lb)).
  2: { rewrite <- !Z.mul_assoc. f_equal.
       rewrite (Z.mul_comm (2 ^ (52 - la))), <- !Z.mul_assoc. f_equal.
       rewrite <- !Z.pow_add_r by lia. f_equal. lia. }
  rewrite binary_round_aux_exact by lia.
  simpl. f_equal. lia.
Qed.

(** ** Conversion of any integer below [2^1023] succeeds *)

Lemma shr_1_m (r : shr_record) :
  0 ≤ shr_m r → shr_m (shr_1 r) = shr_m r `div` 2.
Proof.
  destruct r as [m b c]; simpl. intros Hm.
  destruct m as [|[p|p|]|p]; try lia; simpl shr_m; [done| | |done].
  - rewrite Pos2Z.inj_xI. apply (Z.div_unique _ _ _ 1); lia.
  - rewrite Pos2Z.inj_xO. apply (Z.div_unique _ _ _ 0); lia.
Qed.

Lemma iter_shr_1_m (k : nat) (r : shr_record) :
  0 ≤ shr_m r → shr_m (Nat.iter k shr_1 r) = shr_m r `div` 2 ^ Z.of_nat k.
Proof.
  intros Hm. induction k as [|k IH].
  - simpl. by rewrite Z.div_1_r.
  - change (Nat.iter (S k) shr_1 r) with (shr_1 (Nat.iter k shr_1 r)).
    rewrite shr_1_m.
    + rewrite IH, Nat2Z.inj_succ, Z.pow_succ_r by lia.
      rewrite Z.div_div by lia. f_equal. lia.
    + rewrite IH. apply Z.div_pos; lia.
Qed.

Lemma shr_m_div (r : shr_record) (e n : Z) :
  0 ≤ shr_m r → 0 ≤ n →
  shr_m (fst (shr r e n)) = shr_m r `div` 2 ^ n ∧ snd (shr r e n) = e + n.
Proof.
  intros Hm Hn. destruct n as [|p|p]; try lia; simpl.
  - by rewrite Z.div_1_r, Z.add_0_r.
  - split; [|done]. rewrite iter_pos_nat, iter_shr_1_m by done.
    by rewrite positive_nat_Z.
Qed.

Lemma round_nearest_even_range (m : Z) (l : location) :
  m ≤ round_nearest_even m l ≤ m + 1.
Proof. destruct l as [|[]]; simpl; try destruct (Z.even m); lia. Qed.

Lemma binary_round_large (s : bool) (p : positive) :
  2 ^ 53 ≤ Z.pos p < 2 ^ 1023 →
  ∃ m e, binary_round prec emax s p 0 = S754_finite s m e.
Proof.
  intros Hp.
  assert (Hl : 53 ≤ Z.log2 (Z.pos p) < 1023).
  { split; [apply Z.log2_le_pow2; lia|apply Z.log2_lt_pow2; lia]. }
  pose proof (Z.log2_spec (Z.pos p) ltac:(lia)) as [Hlo Hhi].
  set (l := Z.log2 (Z.pos p)) in *.
  unfold binary_round.
  change (Z.pos (digits2_pos p)) with (Zdigits2 (Z.pos p)).
  rewrite Zdigits2_log2 by lia. fold l.
  replace (fexp prec emax (l + 1 + 0)) with (l - 52)
    by (unfold fexp, emin, prec, emax; lia).
  unfold shl_align. destruct (l - 52 - 0) as [|q|q] eqn:Hq; try lia.
  unfold binary_round_aux, shr_fexp.
  rewrite Zdigits2_log2 by lia. fold l.
  replace (fexp prec emax (l + 1 + 0) - 0) with (l - 52)
    by (unfold fexp, emin, prec, emax; lia).
  destruct (shr_m_div (shr_record_of_loc (Z.pos p) loc_Exact) 0 (l - 52))
    as [Hm1 He1]; [simpl; lia|lia|].
  destruct (shr _ 0 (l - 52)) as [mrs' e'] eqn:Hshr. simpl in Hm1, He1.
  rewrite Z.add_0_l in He1. subst e'.
  assert (Hm1' : 2 ^ 52 ≤ shr_m mrs' < 2 ^ 53).
  { rewrite Hm1.
    assert (Hpow : 0 < 2 ^ (l - 52)) by (apply Z.pow_pos_nonneg; lia).
    split.
    - apply Z.div_le_lower_bound; [lia|].
      rewrite <- Z.pow_add_r by lia. by replace (l - 52 + 52) with l by lia.
    - apply Z.div_lt_upper_bound; [lia|].
      rewrite <- Z.pow_add_r by lia.
      by replace (l - 52 + 53) with (Z.succ l) by lia. }
  pose proof (round_nearest_even_range (shr_m mrs') (loc_of_shr_record mrs')) as Hr.
  set (m2 := round_nearest_even (shr_m mrs') (loc_of_shr_record mrs')) in *.
  unfold shr_record_of_loc.
  destruct (decide (m2 = 2 ^ 53)) as [E|NE].
  - rewrite E.
    replace (fexp prec emax (Zdigits2 (2 ^ 53) + (l - 52)) - (l - 52)) with 1
      by (change (Zdigits2 (2 ^ 53)) with 54; unfold fexp, emin, prec, emax; lia).
    cbn [shr SpecFloat.iter_pos].
    change (shr_m (shr_1 _)) with (Z.pos 4503599627370496).
    replace (l - 52 + 1 <=? emax - prec) with true
      by (symmetry; apply Z.leb_le; unfold prec, emax; lia).
    by eexists _, _.
  - assert (Hlog : Z.log2 m2 = 52) by (apply Z.log2_unique; lia).
    rewrite Zdigits2_log2 by lia. rewrite Hlog.
    replace (fexp prec emax (52 + 1 + (l - 52)) - (l - 52)) with 0
      by (unfold fexp, emin, prec, emax; lia).
    cbn [shr shr_m]. destruct m2 as [|m2|m2]; try lia.
    replace (l - 52 <=? emax - prec) with true
      by (symmetry; apply Z.leb_le; unfold prec, emax; lia).
    by eexists _, _.
Qed.

(** A conversion succeeds for every integer below [2^1023] in magnitude, and
    gives zero only for zero. *)
Lemma float_of_int_Ok (z : Z) :
  Z.abs z < 2 ^ 1023 →
  ∃ x, float_of_int z = Ok x ∧ is_zero x = bool_decide (z = 0) ∧
       is_finite x = true.
Proof.
  intros Hz. destruct (decide (Z.abs z < 2 ^ 53)) as [Hs|Hs].
  - rewrite float_of_int_small by done. eexists. split; [done|].
    split; [apply exact_float_is_zero|by destruct z].
  - unfold float_of_int. destruct z as [|p|p]; [done| |]; simpl in Hz, Hs.
    + destruct (binary_round_large false p) as (m & e & E); [lia|].
      change (binary_normalize prec emax (Z.pos p) 0 false)
        with (binary_round prec emax false p 0). rewrite E. by eexists.
    + destruct (binary_round_large true p) as (m & e & E); [lia|].
      change (binary_normalize prec emax (Z.neg p) 0 false)
        with (binary_round prec emax true p 0). rewrite E. by eexists.
Qed.

(** ** The sequence generator *)

(** The state after [k] turns of the loop. *)
Lemma recemans_run_S (k : nat) :
  fold_left recemans_step (seqZ 1 (Z.of_nat (S k))) (0, [0]) =
  recemans_step (fold_left recemans_step (seqZ 1 (Z.of_nat k)) (0, [0]))
                (1 + Z.of_nat k).
Proof. by rewrite seqZ_S, fold_left_app. Qed.

(** Loop invariant: after [k] turns the list has [k+1] elements, it ends in
    the running value, it starts with 0 and all its elements are
    non-negative. *)
Lemma recemans_run_inv (k : nat) :
  let st := fold_left recemans_step (seqZ 1 (Z.of_nat k)) (0, [0]) in
  length (snd st) = S k ∧ snd st !! k = Some (fst st) ∧
  snd st !! 0%nat = Some 0 ∧ Forall (λ x, 0 ≤ x) (snd st).
Proof.
  induction k as [|k IH].
  - repeat split; auto. by constructor.
  - cbv zeta in *. rewrite recemans_run_S.
    destruct (fold_left _ _ _) as [a s]; simpl in *.
    destruct IH as (Hlen & Hlast & Hhd & Hpos).
    repeat split.
    + rewrite length_app; simpl; lia.
    + rewrite lookup_app_r by lia. by replace (S k - length s)%nat with 0%nat by lia.
    + rewrite lookup_app_l by lia. done.
    + apply Forall_app; split; [done|]. constructor; [|constructor].
      assert (0 ≤ a) by (eapply Forall_lookup_1 in Hpos; eauto).
      destruct (Z.ltb_spec (a - (1 + Z.of_nat k)) 0); simpl; [lia|].
      case_bool_decide; lia.
Qed.

(** The list only grows at its end: what [k] turns built is a prefix of
    what [k + j] turns build. *)
Lemma recemans_run_prefix (k j : nat) :
  snd (fold_left recemans_step (seqZ 1 (Z.of_nat k)) (0, [0])) =
  take (S k) (snd (fold_left recemans_step (seqZ 1 (Z.of_nat (k + j))) (0, [0]))).
Proof.
  induction j as [|j IH].
  - rewrite Nat.add_0_r. rewrite take_ge; [done|].
    pose proof (recemans_run_inv k) as (-> & _); simpl. lia.
  - replace (k + S j)%nat with (S (k + j)) by lia.
    rewrite recemans_run_S.
    pose proof (recemans_run_inv (k + j)) as (Hlen & _). cbv zeta in Hlen.
    destruct (fold_left _ (seqZ 1 (Z.of_nat (k + j))) _) as [a s]; simpl in *.
    rewrite take_app_le by lia. done.
Qed.

(** Element [i] of the output is what turn [i] of the loop appended, and it
    was computed from the first [i] elements of the output. *)
Lemma recemans_sequence_at (n i : Z) :
  0 < i < n →
  let s := recemans_sequence n in
  ∃ a, s !! Z.to_nat (i - 1) = Some a ∧
       s !! Z.to_nat i =
         Some (fst (recemans_step (a, take (Z.to_nat i) s) i)).
Proof.
  intros Hi s. subst s. unfold recemans_sequence.
  set (k := Z.to_nat (i - 1)).
  set (full := snd (fold_left recemans_step (seqZ 1 (n - 1)) (0, [0]))).
  assert (Hk : snd (fold_left recemans_step (seqZ 1 (Z.of_nat k)) (0, [0]))
               = take (S k) full).
  { rewrite (recemans_run_prefix k (Z.to_nat (n - i))). unfold full.
    replace (Z.of_nat (k + Z.to_nat (n - i))) with (n - 1) by lia. done. }
  assert (HSk : snd (fold_left recemans_step (seqZ 1 (Z.of_nat (S k))) (0, [0]))
                = take (S (S k)) full).
  { rewrite (recemans_run_prefix (S k) (Z.to_nat (n - i - 1))). unfold full.
    replace (Z.of_nat (S k + Z.to_nat (n - i - 1))) with (n - 1) by lia. done. }
  pose proof (recemans_run_inv k) as (_ & Hlast & _).
  pose proof (recemans_run_inv (S k)) as (_ & HlastS & _).
  cbv zeta in Hlast, HlastS. rewrite HSk in HlastS. rewrite Hk in Hlast.
  rewrite recemans_run_S in HlastS.
  destruct (fold_left recemans_step (seqZ 1 (Z.of_nat k)) (0, [0])) as [a s0]
    eqn:Hrun.
  simpl in Hk, Hlast. subst s0.
  exists a. split.
  - rewrite lookup_take_lt in Hlast by lia. done.
  - replace (Z.to_nat i) with (S k) by lia.
    rewrite lookup_take_lt in HlastS by lia. rewrite HlastS.
    do 3 f_equal. lia.
Qed.

(** C1, as the code has it. [recemans_sequence 1] is [[0]] and
    [recemans_sequence 8] is [[0; 1; 3; 6; 2; 7; 13; 20]], the first eight
    terms of OEIS A005132. *)
Theorem recemans_sequence_values :
  recemans_sequence 1 = [0] ∧
  recemans_sequence 8 = [0; 1; 3; 6; 2; 7; 13; 20].
Proof. split; vm_compute; reflexivity. Qed.

(** C1, as stated: the list [[0; 1; 3; 2; 7; 6; 13; 4]] is not what
    [recemans_sequence 8] returns (they part at index 3: 6 against 2). *)
Lemma recemans_sequence_8_is_not_claimed :
  bool_decide (recemans_sequence 8 = [0; 1; 3; 2; 7; 6; 13; 4]) = false ∧
  recemans_sequence 8 !! 3%nat = Some 6.
Proof. split; vm_compute; reflexivity. Qed.

(** C2. For [n >= 1] and [0 < i < n], element [i] of [recemans_sequence n] is
    the previous element minus [i] when that difference is non-negative and
    does not occur among the elements at indices [0 .. i-1]; otherwise it is
    the previous element plus [i]. *)
Theorem recemans_sequence_step_rule (n i : Z) :
  1 ≤ n → 0 < i < n →
  let s := recemans_sequence n in
  ∃ prev cur,
    s !! Z.to_nat (i - 1) = Some prev ∧ s !! Z.to_nat i = Some cur ∧
    cur = if decide (0 ≤ prev - i ∧ prev - i ∉ take (Z.to_nat i) s)
          then prev - i else prev + i.
Proof.
  intros _ Hi s.
  destruct (recemans_sequence_at n i Hi) as (a & Hprev & Hcur).
  fold s in Hprev, Hcur. exists a. eexists. split; [done|]. split; [done|].
  simpl. destruct (Z.ltb_spec (a - i) 0); simpl.
  - rewrite decide_False by lia. done.
  - case_bool_decide.
    + rewrite decide_False by tauto. done.
    + rewrite decide_True by (split; [lia|done]). done.
Qed.

Lemma recemans_sequence_step_rule_witness :
  1 ≤ 8 ∧ 0 < 4 < 8 ∧
  ∃ prev cur,
    recemans_sequence 8 !! Z.to_nat (4 - 1) = Some prev ∧
    recemans_sequence 8 !! Z.to_nat 4 = Some cur ∧
    cur = if decide (0 ≤ prev - 4 ∧
                     prev - 4 ∉ take (Z.to_nat 4) (recemans_sequence 8))
          then prev - 4 else prev + 4.
Proof.
  split; [lia|]. split; [lia|].
  apply (recemans_sequence_step_rule 8 4); lia.
Defined.

(** C3. For [n >= 1], [recemans_sequence n] has length [n] and starts with 0;
    for [0 < i < n] its element [i] is non-negative and differs from
    element [i-1] by exactly [i] in absolute value. *)
Theorem recemans_sequence_invariants (n : Z) :
  1 ≤ n →
  let s := recemans_sequence n in
  length s = Z.to_nat n ∧ s !! 0%nat = Some 0 ∧
  ∀ i, 0 < i < n →
    ∃ prev cur,
      s !! Z.to_nat (i - 1) = Some prev ∧ s !! Z.to_nat i = Some cur ∧
      Z.abs (cur - prev) = i ∧ 0 ≤ cur.
Proof.
  intros Hn s.
  pose proof (recemans_run_inv (Z.to_nat (n - 1))) as (Hlen & _ & Hhd & Hpos).
  cbv zeta in Hlen, Hhd, Hpos.
  replace (Z.of_nat (Z.to_nat (n - 1))) with (n - 1) in * by lia.
  fold (recemans_sequence n) in Hlen, Hhd, Hpos. fold s in Hlen, Hhd, Hpos.
  split; [lia|]. split; [done|].
  intros i Hi.
  destruct (recemans_sequence_at n i Hi) as (a & Hprev & Hcur).
  fold s in Hprev, Hcur. exists a. eexists. split; [done|]. split; [done|].
  assert (0 ≤ a) by (eapply Forall_lookup_1 in Hpos; eauto).
  simpl. destruct ((a - i <? 0) || _) eqn:E; simpl; [lia|].
  apply orb_false_iff in E as [E _]. apply Z.ltb_ge in E. lia.
Qed.

Lemma recemans_sequence_invariants_witness :
  1 ≤ 8 ∧
  length (recemans_sequence 8) = Z.to_nat 8 ∧
  recemans_sequence 8 !! 0%nat = Some 0 ∧
  ∀ i, 0 < i < 8 →
    ∃ prev cur,
      recemans_sequence 8 !! Z.to_nat (i - 1) = Some prev ∧
      recemans_sequence 8 !! Z.to_nat i = Some cur ∧
      Z.abs (cur - prev) = i ∧ 0 ≤ cur.
Proof. split; [lia|]. apply (recemans_sequence_invariants 8); lia. Defined.

(** ** Loops that collect results *)

Lemma bind_Ok {A B : Type} (a : A) (k : A → result B) : (Ok a ≫= k) = k a.
Proof. done. Qed.

Lemma for_each_length {A B : Type} (f : A → result B) (l : list A) (ys : list B) :
  for_each f l = Ok ys → length ys = length l.
Proof.
  revert ys. induction l as [|x l IH]; intros ys; simpl.
  - by intros [= <-].
  - destruct (f x) as [y|e]; [|done]. rewrite bind_Ok.
    destruct (for_each f l) as [ys'|e]; [|done]. rewrite bind_Ok.
    intros [= <-]. simpl. by rewrite (IH ys').
Qed.

Lemma for_each_Ok {A B : Type} (f : A → result B) (l : list A) :
  Forall (λ x, ∃ y, f x = Ok y) l → ∃ ys, for_each f l = Ok ys.
Proof.
  induction 1 as [|x l [y Hy] _ [ys Hys]]; simpl.
  - by eexists.
  - rewrite Hy, bind_Ok, Hys, bind_Ok. by eexists.
Qed.

Lemma py_truediv_Ok (x y : float) :
  is_zero y = false → py_truediv x y = Ok (fdiv x y).
Proof. intros Hy. unfold py_truediv. by rewrite Hy. Qed.

Lemma py_truediv_exact (x : float) (k : Z) :
  k ≠ 0 → py_truediv x (exact_float k) = Ok (fdiv x (exact_float k)).
Proof.
  intros Hk. apply py_truediv_Ok. rewrite exact_float_is_zero.
  by rewrite bool_decide_eq_false_2.
Qed.

(** ** The arc interpolator *)

Section ArcInterpolator.
Variable np_cos np_sin : float → float.

Lemma arc_point_Ok (a0 a1 : Z) (st tf u r : float) (k : Z) (flipped : bool)
    (i : Z) :
  Z.abs a0 < 2 ^ 1023 → Z.abs (a1 - a0) < 2 ^ 53 → k < 2 ^ 53 → 0 ≤ i < k →
  ∃ p, arc_point np_cos np_sin a0 a1 st tf u r k flipped i = Ok p.
Proof.
  intros Ha0 Hd Hk Hi. unfold arc_point.
  assert (Ht : Z.abs (if flipped then k - i else i) < 2 ^ 53)
    by (destruct flipped; lia).
  destruct (float_of_int_Ok a0 Ha0) as (fa0 & Ea0 & _).
  repeat first
    [ rewrite bind_Ok
    | rewrite Ea0
    | rewrite float_of_int_small by (done || lia)
    | rewrite py_truediv_exact by lia ].
  by eexists.
Qed.

(** Within the range of binary64 the call returns, with
    [resolution * |a1 - a0|] points. *)
Lemma interpolate_arcs_length (a0 a1 : Z) (st tf : float) (resolution : Z) :
  Z.abs a0 < 2 ^ 1022 → Z.abs a1 < 2 ^ 1022 →
  0 < resolution < 2 ^ 1023 → resolution * Z.abs (a1 - a0) < 2 ^ 53 →
  ∃ points,
    interpolate_arcs np_cos np_sin a0 a1 st tf resolution = Ok points ∧
    Z.of_nat (length points) = resolution * Z.abs (a1 - a0).
Proof.
  intros Ha0 Ha1 Hres Hprod.
  assert (H1023 : 2 ^ 1023 = 2 * 2 ^ 1022) by done.
  assert (Hd : Z.abs (a1 - a0) < 2 ^ 53) by nia.
  assert (Hk : 0 ≤ Z.abs (a1 - a0) * resolution < 2 ^ 53) by nia.
  unfold interpolate_arcs.
  destruct (float_of_int_Ok (a0 + a1)) as (fs & -> & _); [lia|].
  rewrite bind_Ok.
  rewrite (float_of_int_small (Z.abs (a1 - a0))), bind_Ok by lia.
  destruct (decide (a1 - a0 = 0)) as [E0|NE0].
  - (* a0 = a1: the radius is 0.0 and so is the sample count *)
    rewrite E0. change (Z.abs 0) with 0.
    destruct (float_of_int_Ok resolution) as (fres & -> & _ & Hfin); [lia|].
    rewrite bind_Ok.
    replace (int_of_float _) with (@Ok Z 0) by (by destruct fres).
    rewrite bind_Ok. exists []. split; [done|]. simpl. lia.
  - assert (resolution < 2 ^ 53) by nia.
    rewrite (float_of_int_small resolution), bind_Ok by lia.
    rewrite fmul_two_half_exact by lia.
    rewrite fmul_exact by lia.
    rewrite int_of_float_exact by (rewrite Z.abs_eq; lia). rewrite bind_Ok.
    set (k := Z.abs (a1 - a0) * resolution).
    destruct (for_each_Ok
      (arc_point np_cos np_sin a0 a1 st tf (fmul fhalf fs)
         (fmul fhalf (exact_float (Z.abs (a1 - a0)))) k (bool_decide (a1 < a0)))
      (seqZ 0 k)) as [points Hpoints].
    { apply Forall_seqZ. intros i Hi. apply arc_point_Ok; lia. }
    exists points. split; [done|].
    apply for_each_length in Hpoints. rewrite Hpoints, length_seqZ. lia.
Qed.

(** C4, within the range of binary64: for integers [a0], [a1] of magnitude
    below [2^1022] and a positive [resolution] (below [2^1023]) with
    [resolution * |a1 - a0| < 2^53], [interpolate_arcs] returns exactly
    [resolution * |a1 - a0|] points (none when [a0 = a1]). *)
Theorem interpolate_arcs_count (a0 a1 : Z) (st tf : float) (resolution : Z) :
  Z.abs a0 < 2 ^ 1022 → Z.abs a1 < 2 ^ 1022 →
  0 < resolution < 2 ^ 1023 → resolution * Z.abs (a1 - a0) < 2 ^ 53 →
  ∃ points,
    interpolate_arcs np_cos np_sin a0 a1 st tf resolution = Ok points ∧
    Z.of_nat (length points) = resolution * Z.abs (a1 - a0) ∧
    (a0 = a1 → points = []).
Proof.
  intros Ha0 Ha1 Hres Hprod.
  destruct (interpolate_arcs_length a0 a1 st tf resolution)
    as (points & Hp & Hlen); [done..|].
  exists points. split; [done|]. split; [done|].
  intros ->. apply nil_length_inv. rewrite Z.sub_diag in Hlen. simpl in Hlen. lia.
Qed.
End ArcInterpolator.

Lemma interpolate_arcs_count_witness :
  Z.abs 3 < 2 ^ 1022 ∧ Z.abs 7 < 2 ^ 1022 ∧ 0 < 10 < 2 ^ 1023 ∧
  10 * Z.abs (7 - 3) < 2 ^ 53 ∧
  ∃ points,
    interpolate_arcs taylor_cos taylor_sin 3 7 fzero fhalf 10 = Ok points ∧
    Z.of_nat (length points) = 10 * Z.abs (7 - 3) ∧
    (3 = 7 → points = []).
Proof.
  repeat (split; [lia|]).
  apply (interpolate_arcs_count taylor_cos taylor_sin 3 7 fzero fhalf 10); lia.
Defined.

(** C4, as stated, fails past the range of binary64: for [a1 = 2^1024] the
    conversion in [0.5 * (a0 + a1)] raises [OverflowError] and no list is
    returned. *)
Lemma interpolate_arcs_overflow :
  interpolate_arcs taylor_cos taylor_sin 0 (2 ^ 1024) fzero fhalf 1
  = Raise OverflowError.
Proof. vm_compute. reflexivity. Qed.

(** ** The tube extruder: counting *)

Lemma length_ring (circle : list vec3) (p t : vec3) :
  length (ring circle p t) = length circle.
Proof. unfold ring. by rewrite length_fmap. Qed.

Lemma length_rings (circle : list vec3) (points : list vec3) :
  length (rings circle points) = (pred (length points) * length circle)%nat.
Proof.
  induction points as [|p0 [|p1 rest] IH]; [done..|].
  change (rings circle (p0 :: p1 :: rest))
    with (ring circle p0 (vec_sub p1 p0) ++ rings circle (p1 :: rest)).
  rewrite length_app, length_ring, IH. simpl. lia.
Qed.

Lemma py_getitem_last_two {A : Type} (l : list A) :
  (2 ≤ length l)%nat →
  ∃ x y, py_getitem l (-1) = Ok x ∧ py_getitem l (-2) = Ok y.
Proof.
  intros Hl. unfold py_getitem.
  change (-1 <? 0) with true. change (-2 <? 0) with true. cbv iota.
  destruct (Z.ltb_spec (-1 + Z.of_nat (length l)) 0); [lia|].
  destruct (Z.ltb_spec (-2 + Z.of_nat (length l)) 0); [lia|].
  destruct (lookup_lt_is_Some_2 l (Z.to_nat (-1 + Z.of_nat (length l))))
    as [x Hx]; [lia|].
  destruct (lookup_lt_is_Some_2 l (Z.to_nat (-2 + Z.of_nat (length l))))
    as [y Hy]; [lia|].
  exists x, y. by rewrite Hx, Hy.
Qed.

Lemma length_bind_const {A B : Type} (f : A → list B) (l : list A) (c : nat) :
  (∀ x, x ∈ l → length (f x) = c) → length (l ≫= f) = (length l * c)%nat.
Proof.
  induction l as [|x l IH]; intros Hf; [done|].
  rewrite bind_cons, length_app, IH, Hf; [simpl; lia|constructor|].
  intros y Hy. apply Hf. by constructor.
Qed.

Lemma length_tube_faces (m n offset : Z) :
  length (tube_faces m n offset) = (Z.to_nat (m - 1) * (Z.to_nat n * 2))%nat.
Proof.
  unfold tube_faces.
  rewrite (length_bind_const _ _ (Z.to_nat n * 2)%nat), length_seqZ; [done|].
  intros i _.
  rewrite (length_bind_const _ _ 2%nat), length_seqZ; done.
Qed.

Lemma unravel_range (m n offset i j u v : Z) :
  0 ≤ i < m - 1 → 0 ≤ j < n → 0 ≤ u ≤ 1 →
  1 + offset ≤ unravel n offset i j u v ≤ m * n + offset.
Proof.
  intros Hi Hj Hu. unfold unravel.
  pose proof (Z.mod_pos_bound (j + v) n ltac:(lia)). nia.
Qed.

Lemma tube_faces_in_range (m n offset : Z) :
  Forall (face_in_range (1 + offset) (m * n + offset)) (tube_faces m n offset).
Proof.
  apply Forall_forall. intros f Hf. unfold tube_faces in Hf.
  apply list_elem_of_bind in Hf as (i & Hf & Hi).
  apply list_elem_of_bind in Hf as (j & Hf & Hj).
  apply elem_of_seqZ in Hi. apply elem_of_seqZ in Hj.
  cbv zeta in Hf.
  apply elem_of_cons in Hf as [->|Hf];
    [|apply list_elem_of_singleton in Hf as ->].
  all: unfold face_in_range; (split; [|split]).
  all: apply unravel_range; lia.
Qed.

Section TubeExtruder.
Variable np_cos np_sin : float → float.

Lemma circle_xy_Ok (radius : float) (resolution : Z) :
  resolution < 2 ^ 1023 →
  ∃ circle, circle_xy np_cos np_sin radius resolution = Ok circle ∧
            length circle = Z.to_nat resolution.
Proof.
  intros Hn. unfold circle_xy.
  match goal with |- context [for_each ?f ?l] =>
    destruct (for_each_Ok f l) as [circle Hc] end.
  { apply Forall_seqZ. intros i Hi.
    destruct (float_of_int_Ok i) as (fi & -> & _); [lia|].
    destruct (float_of_int_Ok resolution) as (fn & -> & Hz & _); [lia|].
    rewrite bool_decide_eq_false_2 in Hz by lia.
    rewrite !bind_Ok, py_truediv_Ok, bind_Ok by done.
    by eexists. }
  exists circle. split; [done|].
  apply for_each_length in Hc. by rewrite Hc, length_seqZ.
Qed.

(** C5, for a resolution that is a count in the range of binary64: on a
    curve of [m >= 2] points, for every radius and offset and every
    [0 <= resolution < 2^1023], [tube_along_curve] returns [m * resolution]
    vertices and [2 * (m - 1) * resolution] faces, and every index of
    every face lies in [1 + offset, m * resolution + offset]. *)
Theorem tube_along_curve_topology (points : list vec3) (radius : float)
    (resolution offset : Z) :
  (2 ≤ length points)%nat → 0 ≤ resolution < 2 ^ 1023 →
  let m := Z.of_nat (length points) in
  ∃ vertex_list face_list,
    tube_along_curve np_cos np_sin points radius resolution offset
      = Ok (vertex_list, face_list) ∧
    Z.of_nat (length vertex_list) = m * resolution ∧
    Z.of_nat (length face_list) = 2 * (m - 1) * resolution ∧
    Forall (face_in_range (1 + offset) (m * resolution + offset)) face_list.
Proof.
  intros Hm Hn m. unfold tube_along_curve.
  destruct (circle_xy_Ok radius resolution) as (circle & -> & Hc); [lia|].
  destruct (py_getitem_last_two points Hm) as (x & y & -> & ->).
  rewrite !bind_Ok. eexists _, _. split; [done|].
  split; [|split].
  - rewrite length_app, length_rings, length_ring, Hc. subst m. nia.
  - rewrite length_tube_faces. subst m. nia.
  - apply tube_faces_in_range.
Qed.
End TubeExtruder.

Lemma tube_along_curve_topology_witness :
  (2 ≤ length [Vec3 fzero fzero fzero; Vec3 fzero fzero fone])%nat ∧
  0 ≤ 3 < 2 ^ 1023 ∧
  ∃ vertex_list face_list,
    tube_along_curve taylor_cos taylor_sin
      [Vec3 fzero fzero fzero; Vec3 fzero fzero fone] fone 3 7
      = Ok (vertex_list, face_list) ∧
    Z.of_nat (length vertex_list) = 2 * 3 ∧
    Z.of_nat (length face_list) = 2 * (2 - 1) * 3 ∧
    Forall (face_in_range (1 + 7) (2 * 3 + 7)) face_list.
Proof.
  split; [simpl; lia|]. split; [lia|].
  apply (tube_along_curve_topology taylor_cos taylor_sin
           [Vec3 fzero fzero fzero; Vec3 fzero fzero fone] fone 3 7);
    [simpl; lia|lia].
Defined.

(** C5, as stated for every resolution, fails outside that range: a
    negative resolution yields the empty mesh (not [m * resolution]
    vertices), and a resolution past the largest double raises
    [OverflowError] in [circle_xy]. *)
Lemma tube_along_curve_bad_resolution :
  tube_along_curve taylor_cos taylor_sin
    [Vec3 fzero fzero fzero; Vec3 fzero fzero fone] fone (-1) 0 = Ok ([], []) ∧
  tube_along_curve taylor_cos taylor_sin
    [Vec3 fzero fzero fzero; Vec3 fzero fzero fone] fone (2 ^ 1024) 0
    = Raise OverflowError.
Proof.
  split; [vm_compute; reflexivity|].
  unfold tube_along_curve, circle_xy.
  rewrite seqZ_cons by lia. cbn [for_each].
  rewrite (float_of_int_small 0), bind_Ok by lia.
  replace (float_of_int (2 ^ 1024)) with (@Raise float OverflowError)
    by (vm_compute; reflexivity).
  done.
Qed.

(** ** Non-finite values *)

Lemma fmul_nan_r (x : float) : fmul x fnan = fnan.
Proof. by destruct x. Qed.

Lemma fadd_nan_r (x : float) : fadd x fnan = fnan.
Proof. by destruct x. Qed.

Lemma fdiv_zero_non_finite (x z : float) :
  is_zero z = true → is_finite (fdiv x z) = false.
Proof. by destruct x, z. Qed.

Lemma fadd_non_finite_r (x y : float) :
  is_finite y = false → is_finite (fadd x y) = false.
Proof. destruct x as [| [] | |], y as [| [] | |]; done. Qed.

Lemma fsub_self (x : float) : is_finite x = true → fsub x x = fzero.
Proof.
  destruct x as [[]| | |s m e]; try done. intros _.
  unfold fsub, SFsub. by rewrite Z.sub_diag.
Qed.

(** ** The rotation solver *)

(** C6, as the code has it: when the dot product of the inputs is -1 the
    function has no fallback; it divides by [1 + c = 0] and every entry of
    the matrix it returns is non-finite (a NaN or an infinity). *)
Theorem rotation_matrix_antiparallel (a b : vec3) :
  np_dot a b = fopp fone →
  is_zero (fadd fone (np_dot a b)) = true ∧
  mat_all (λ x, negb (is_finite x)) (rotation_matrix_from_vectors a b) = true.
Proof.
  intros Hc. split; [by rewrite Hc|].
  unfold rotation_matrix_from_vectors. rewrite Hc.
  unfold mat_all, vec_all, mat_add, vec_add, mat_map, vec_map; cbn [row0 row1 row2 c0 c1 c2].
  rewrite !fadd_non_finite_r; [done|..].
  all: by apply fdiv_zero_non_finite.
Qed.

Lemma rotation_matrix_antiparallel_witness :
  np_dot (Vec3 fzero fzero (fopp fone)) (Vec3 fzero fzero fone) = fopp fone ∧
  is_zero (fadd fone (np_dot (Vec3 fzero fzero (fopp fone))
                             (Vec3 fzero fzero fone))) = true ∧
  mat_all (λ x, negb (is_finite x))
    (rotation_matrix_from_vectors (Vec3 fzero fzero (fopp fone))
                                  (Vec3 fzero fzero fone)) = true.
Proof.
  split; [vm_compute; reflexivity|].
  apply (rotation_matrix_antiparallel (Vec3 fzero fzero (fopp fone))
           (Vec3 fzero fzero fone)).
  vm_compute; reflexivity.
Defined.

(** C6, as stated, fails: for the anti-parallel pair [(0, 0, -1)] and
    [(0, 0, 1)] the result is the all-NaN matrix, not a rotation by 180
    degrees. *)
Lemma rotation_matrix_antiparallel_nan :
  rotation_matrix_from_vectors (Vec3 fzero fzero (fopp fone))
                               (Vec3 fzero fzero fone)
  = Mat3 (Vec3 fnan fnan fnan) (Vec3 fnan fnan fnan) (Vec3 fnan fnan fnan).
Proof. vm_compute. reflexivity. Qed.

(** ** The tube extruder on a zero-length segment *)

Lemma vec_sub_self (p : vec3) :
  vec_all is_finite p = true → vec_sub p p = Vec3 fzero fzero fzero.
Proof.
  destruct p as [x y z]. unfold vec_all; simpl.
  intros H. apply andb_prop in H as [H Hz]. apply andb_prop in H as [Hx Hy].
  unfold vec_sub; simpl. by rewrite !fsub_self.
Qed.

(** The ring of a zero tangent: the normalisation is 0/0, the rotation is
    the all-NaN matrix and so is every vertex, whatever the circle. *)
Lemma ring_zero_tangent (circle : list vec3) (p : vec3) :
  ring circle p (Vec3 fzero fzero fzero) = replicate (length circle) nan_vertex.
Proof.
  unfold ring. apply const_fmap. intros _ c _.
  replace (rotation_matrix_from_vectors _ _)
    with (Mat3 nan_vertex nan_vertex nan_vertex) by (vm_compute; reflexivity).
  unfold vec_mat, vec_add, np_dot, col0, col1, col2, nan_vertex;
    cbn [row0 row1 row2 c0 c1 c2].
  by rewrite !fmul_nan_r, !fadd_nan_r.
Qed.

Lemma rings_app (circle : list vec3) (pre : list vec3) (p q : vec3)
    (post : list vec3) :
  rings circle (pre ++ p :: q :: post)
  = rings circle (pre ++ [p]) ++ ring circle p (vec_sub q p)
      ++ rings circle (q :: post).
Proof.
  induction pre as [|x [|y pre] IH]; [done| |].
  - cbn [rings app]. by rewrite app_nil_r.
  - change (rings circle ((x :: y :: pre) ++ p :: q :: post))
      with (ring circle x (vec_sub y x)
              ++ rings circle ((y :: pre) ++ p :: q :: post)).
    rewrite IH. by rewrite app_assoc.
Qed.

Section DegenerateSegment.
Variable np_cos np_sin : float → float.

(** C7, as the code has it: on a curve with two coincident consecutive
    points (of finite coordinates) [tube_along_curve] raises nothing; it
    returns a mesh in which the ring placed at the first of the two points
    consists of NaN vertices. *)
Theorem tube_along_curve_degenerate (pre : list vec3) (p : vec3)
    (post : list vec3) (radius : float) (resolution offset : Z) :
  vec_all is_finite p = true → 0 ≤ resolution < 2 ^ 1023 →
  ∃ vertex_list face_list,
    tube_along_curve np_cos np_sin (pre ++ p :: p :: post) radius
      resolution offset = Ok (vertex_list, face_list) ∧
    take (Z.to_nat resolution)
         (drop (length pre * Z.to_nat resolution) vertex_list)
    = replicate (Z.to_nat resolution) nan_vertex.
Proof.
  intros Hp Hn. unfold tube_along_curve.
  destruct (circle_xy_Ok np_cos np_sin radius resolution)
    as (circle & -> & Hc); [lia|].
  destruct (py_getitem_last_two (pre ++ p :: p :: post))
    as (x & y & -> & ->); [rewrite length_app; simpl; lia|].
  rewrite !bind_Ok. eexists _, _. split; [done|].
  rewrite rings_app, vec_sub_self, ring_zero_tangent by done.
  rewrite <- !app_assoc.
  rewrite drop_app_length'
    by (rewrite length_rings, length_app, Hc; simpl; lia).
  rewrite take_app_length' by (by rewrite length_replicate).
  by rewrite Hc.
Qed.
End DegenerateSegment.

Lemma tube_along_curve_degenerate_witness :
  vec_all is_finite (Vec3 fone fzero ftwo) = true ∧ 0 ≤ 3 < 2 ^ 1023 ∧
  ∃ vertex_list face_list,
    tube_along_curve taylor_cos taylor_sin
      ([Vec3 fzero fzero fzero] ++ Vec3 fone fzero ftwo :: Vec3 fone fzero ftwo
         :: [Vec3 ftwo fzero ftwo]) fhalf 3 0 = Ok (vertex_list, face_list) ∧
    take (Z.to_nat 3) (drop (length [Vec3 fzero fzero fzero] * Z.to_nat 3)
                            vertex_list)
    = replicate (Z.to_nat 3) nan_vertex.
Proof.
  split; [reflexivity|]. split; [lia|].
  apply (tube_along_curve_degenerate taylor_cos taylor_sin
           [Vec3 fzero fzero fzero] (Vec3 fone fzero ftwo)
           [Vec3 ftwo fzero ftwo] fhalf 3 0); [reflexivity|lia].
Defined.

(** C7, as stated, fails: on the curve made of the origin twice the call
    returns normally, and all six vertices of the mesh are NaN. *)
Lemma tube_along_curve_coincident_returns :
  tube_along_curve taylor_cos taylor_sin
    [Vec3 fzero fzero fzero; Vec3 fzero fzero fzero] fone 3 0
  = Ok (replicate 6 nan_vertex,
        [(1, 5, 4); (1, 2, 5); (2, 6, 5); (2, 3, 6); (3, 4, 6); (3, 1, 4)]).
Proof. vm_compute. reflexivity. Qed.

(** ** The pipeline *)

(** The terms stay below [k * (k + 1)] after [k] turns. *)
Lemma recemans_run_bound (k : nat) :
  Forall (λ x, 0 ≤ x ≤ Z.of_nat k * (Z.of_nat k + 1))
         (snd (fold_left recemans_step (seqZ 1 (Z.of_nat k)) (0, [0]))).
Proof.
  induction k as [|k IH].
  - repeat constructor; lia.
  - rewrite recemans_run_S.
    pose proof (recemans_run_inv k) as (_ & Hlast & _). cbv zeta in Hlast.
    destruct (fold_left _ _ _) as [a s]; simpl in *.
    assert (Ha : 0 ≤ a ≤ Z.of_nat k * (Z.of_nat k + 1))
      by (eapply Forall_lookup_1 in IH; eauto).
    apply Forall_app; split.
    + eapply Forall_impl; [exact IH|]. intros x Hx; simpl in Hx. nia.
    + constructor; [|constructor].
      destruct (Z.ltb_spec (a - (1 + Z.of_nat k)) 0); simpl; [nia|].
      case_bool_decide; nia.
Qed.

Lemma recemans_sequence_bound (n : Z) :
  1 ≤ n → Forall (λ x, 0 ≤ x ≤ (n - 1) * n) (recemans_sequence n).
Proof.
  intros Hn. pose proof (recemans_run_bound (Z.to_nat (n - 1))) as H.
  replace (Z.of_nat (Z.to_nat (n - 1))) with (n - 1) in H by lia.
  eapply Forall_impl; [exact H|]. intros x Hx; simpl in Hx. lia.
Qed.

Lemma recemans_sequence_length (n : Z) :
  1 ≤ n → length (recemans_sequence n) = Z.to_nat n.
Proof.
  intros Hn. pose proof (recemans_run_inv (Z.to_nat (n - 1))) as (Hlen & _).
  cbv zeta in Hlen.
  replace (Z.of_nat (Z.to_nat (n - 1))) with (n - 1) in Hlen by lia.
  unfold recemans_sequence. lia.
Qed.

Lemma py_getitem_lookup {A : Type} (l : list A) (i : Z) (x : A) :
  0 ≤ i → l !! Z.to_nat i = Some x → py_getitem l i = Ok x.
Proof.
  intros Hi Hx. unfold py_getitem. cbv zeta.
  destruct (Z.ltb_spec i 0); [lia|]. cbv iota.
  destruct (Z.ltb_spec i 0); [lia|]. by rewrite Hx.
Qed.

Lemma py_min_range (lo hi : Z) (l : list Z) :
  l ≠ [] → Forall (λ x, lo ≤ x ≤ hi) l → lo ≤ py_min l ≤ hi.
Proof.
  intros Hne Hl. unfold py_min.
  assert (Hd : lo ≤ default 0 (head l) ≤ hi)
    by (destruct Hl; [done|simpl; lia]).
  revert Hd. generalize (default 0 (head l)). clear Hne.
  induction Hl; intros d Hd; simpl; [lia|].
  specialize (IHHl d Hd). lia.
Qed.

Lemma py_max_range (lo hi : Z) (l : list Z) :
  l ≠ [] → Forall (λ x, lo ≤ x ≤ hi) l → lo ≤ py_max l ≤ hi.
Proof.
  intros Hne Hl. unfold py_max.
  assert (Hd : lo ≤ default 0 (head l) ≤ hi)
    by (destruct Hl; [done|simpl; lia]).
  revert Hd. generalize (default 0 (head l)). clear Hne.
  induction Hl; intros d Hd; simpl; [lia|].
  specialize (IHHl d Hd). lia.
Qed.

Lemma for_each_Forall2 {A B : Type} (P : A → B → Prop) (f : A → result B)
    (l : list A) :
  Forall (λ x, ∃ y, f x = Ok y ∧ P x y) l →
  ∃ ys, for_each f l = Ok ys ∧ Forall2 P l ys.
Proof.
  induction 1 as [|x l (y & Hy & HP) _ (ys & Hys & HF)]; simpl.
  - eexists. split; [done|constructor].
  - rewrite Hy, bind_Ok, Hys, bind_Ok. eexists. split; [done|by constructor].
Qed.

Section Pipeline.
Variable np_cos np_sin : float → float.
Variable str_float : float → string.

(** The extruder returns for every resolution below [2^1023], also a
    degenerate or a negative one. *)
Lemma tube_along_curve_returns (points : list vec3) (radius : float)
    (resolution offset : Z) :
  (2 ≤ length points)%nat → resolution < 2 ^ 1023 →
  ∃ vertex_list face_list,
    tube_along_curve np_cos np_sin points radius resolution offset
      = Ok (vertex_list, face_list) ∧
    length vertex_list = (length points * Z.to_nat resolution)%nat.
Proof.
  intros Hm Hn. unfold tube_along_curve.
  destruct (circle_xy_Ok np_cos np_sin radius resolution)
    as (circle & -> & Hc); [lia|].
  destruct (py_getitem_last_two points Hm) as (x & y & -> & ->).
  rewrite !bind_Ok. eexists _, _. split; [done|].
  rewrite length_app, length_rings, length_ring, Hc. lia.
Qed.

Lemma build_curve_Ok (n : Z) (twist_factor : float) (arc_resolution : Z) :
  2 ≤ n < 2 ^ 20 → 2 ≤ arc_resolution < 2 ^ 20 →
  is_zero twist_factor = false →
  ∃ curve,
    build_curve np_cos np_sin (recemans_sequence n) twist_factor
      arc_resolution = Ok curve ∧
    (2 ≤ length curve)%nat.
Proof.
  intros Hn Hres Htf. unfold build_curve.
  rewrite recemans_sequence_length by lia.
  replace (Z.of_nat (Z.to_nat n) - 1) with (n - 1) by lia.
  match goal with |- context [for_each ?f ?l] =>
    destruct (for_each_Forall2 (λ _ pts, (2 ≤ length pts)%nat) f l)
      as (arcs & -> & Harcs) end.
  { apply Forall_seqZ. intros i Hi.
    destruct (recemans_sequence_at n i ltac:(lia)) as (prev & Hprev & Hcur).
    cbv zeta in Hprev, Hcur.
    set (cur := fst (recemans_step _ i)) in Hcur.
    pose proof (recemans_sequence_bound n ltac:(lia)) as Hb.
    assert (Hbp : 0 ≤ prev ≤ (n - 1) * n)
      by (eapply Forall_lookup_1 in Hprev; eauto; done).
    assert (Hbc : 0 ≤ cur ≤ (n - 1) * n)
      by (eapply Forall_lookup_1 in Hcur; eauto; done).
    assert (Hstep : Z.abs (cur - prev) = i).
    { subst cur. simpl. destruct ((prev - i <? 0) || _); simpl; lia. }
    assert (Hstart : ∃ st, (if bool_decide (i `mod` 2 = 0) then Ok fzero
                            else py_truediv np_pi twist_factor) = Ok st).
    { case_bool_decide; [by eexists|]. rewrite py_truediv_Ok by done.
      by eexists. }
    destruct Hstart as [st ->].
    rewrite bind_Ok.
    rewrite (py_getitem_lookup _ (i - 1) prev), bind_Ok by (done || lia).
    rewrite (py_getitem_lookup _ i cur), bind_Ok by (done || lia).
    assert (H20 : 2 ^ 20 = 1048576) by done.
    assert (H53 : 2 ^ 53 = 9007199254740992) by done.
    assert (H1022 : 2 ^ 53 < 2 ^ 1022) by (apply Z.pow_lt_mono_r; lia).
    assert (H1023 : 2 ^ 53 < 2 ^ 1023) by (apply Z.pow_lt_mono_r; lia).
    destruct (interpolate_arcs_length np_cos np_sin prev cur st twist_factor
                arc_resolution) as (pts & -> & Hlen); [nia|nia|lia|nia|].
    exists pts. split; [done|]. nia. }
  rewrite bind_Ok. eexists. split; [done|].
  rewrite seqZ_cons in Harcs by lia.
  inversion Harcs as [|? pts ? arcs' Hpts _]; subst.
  simpl. rewrite length_app. lia.
Qed.

(** Within the ranges below, the pipeline returns and writes the file; the
    tube resolution may be any integer below [2^1023]. *)
Lemma build_mesh_Ok (a : args) :
  2 ≤ arg_n a < 2 ^ 20 → 2 ≤ arg_arc_resolution a < 2 ^ 20 →
  is_zero (arg_twist_factor a) = false →
  arg_tube_resolution a < 2 ^ 1023 →
  ∃ vertex_list face_list,
    build_mesh np_cos np_sin a = Ok (vertex_list, face_list).
Proof.
  intros Hn Hres Htf Htube. unfold build_mesh.
  destruct (build_curve_Ok (arg_n a) (arg_twist_factor a)
              (arg_arc_resolution a)) as (curve & -> & Hlen); [done..|].
  rewrite bind_Ok.
  destruct (tube_along_curve_returns curve (arg_tube_radius a)
              (arg_tube_resolution a) 0) as (vs & fl & -> & _); [done..|].
  rewrite bind_Ok.
  destruct (arg_number_axis a); [|by eexists _, _].
  pose proof (recemans_sequence_bound (arg_n a) ltac:(lia)) as Hb.
  assert (Hne : recemans_sequence (arg_n a) ≠ []).
  { intros E. pose proof (recemans_sequence_length (arg_n a) ltac:(lia)) as Hl.
    rewrite E in Hl. simpl in Hl. lia. }
  pose proof (py_min_range _ _ _ Hne Hb) as Hmin.
  pose proof (py_max_range _ _ _ Hne Hb) as Hmax.
  assert (H20 : 2 ^ 20 = 1048576) by done.
  assert (H53 : 2 ^ 53 = 9007199254740992) by done.
  rewrite (float_of_int_small (py_min _)), bind_Ok by nia.
  rewrite (float_of_int_small (py_max _)), bind_Ok by nia.
  match goal with |- context [tube_along_curve _ _ ?pts ?r ?n ?o] =>
    destruct (tube_along_curve_returns pts r n o) as (av & af & -> & _);
      [simpl; lia|done|] end.
  rewrite bind_Ok. by eexists _, _.
Qed.


(** With a zero twist factor the first arc divides [np.pi] by it. *)
Lemma main_zero_twist_factor (a : args) (fs : file_system) :
  2 ≤ arg_n a → is_zero (arg_twist_factor a) = true →
  main np_cos np_sin str_float a fs = Raise ZeroDivisionError.
Proof.
  intros Hn Htf. unfold main, build_mesh, build_curve.
  rewrite recemans_sequence_length by lia.
  rewrite seqZ_cons by lia. cbn [for_each].
  rewrite bool_decide_eq_false_2 by done.
  unfold py_truediv. by rewrite Htf.
Qed.

(** With fewer than two terms the curve is empty and the extruder indexes
    past it. *)
Lemma main_short_sequence (a : args) (fs : file_system) :
  arg_n a ≤ 1 → arg_tube_resolution a < 2 ^ 1023 →
  main np_cos np_sin str_float a fs = Raise IndexError.
Proof.
  intros Hn Htube. unfold main, build_mesh.
  replace (recemans_sequence (arg_n a)) with [0]
    by (unfold recemans_sequence; by rewrite seqZ_nil by lia).
  unfold build_curve. simpl length. rewrite seqZ_nil by lia.
  cbn [for_each]. rewrite !bind_Ok. simpl concat.
  unfold tube_along_curve.
  destruct (circle_xy_Ok np_cos np_sin (arg_tube_radius a)
              (arg_tube_resolution a)) as (circle & -> & _); [done|].
  done.
Qed.

End Pipeline.



(* ===================================================================== *)
(** * Part III: further properties of the code                            *)
(* ===================================================================== *)

(** ** More on the sequence generator *)

(** The running value is new or reached by a forward step, and it is
    positive: the value 0 stays where it started. *)
Lemma recemans_run_positive (k : nat) :
  ∀ i x, (0 < i)%nat →
    snd (fold_left recemans_step (seqZ 1 (Z.of_nat k)) (0, [0])) !! i = Some x →
    0 < x.
Proof.
  induction k as [|k IH]; intros i x Hi Hx.
  - destruct i; [lia|]. done.
  - rewrite recemans_run_S in Hx.
    pose proof (recemans_run_inv k) as (Hlen & Hlast & Hhd & Hpos).
    cbv zeta in Hlen, Hlast, Hhd, Hpos.
    destruct (fold_left _ _ _) as [a s]; simpl in *.
    destruct (decide (i < length s)%nat) as [Hlt|Hge].
    + rewrite lookup_app_l in Hx by done. by apply (IH i).
    + rewrite lookup_app_r in Hx by lia.
      destruct (i - length s)%nat; [|done]. injection Hx as <-.
      assert (0 ≤ a) by (eapply Forall_lookup_1 in Hpos; eauto).
      destruct (Z.ltb_spec (a - (1 + Z.of_nat k)) 0); simpl; [lia|].
      case_bool_decide as Hin; [lia|].
      assert (a - (1 + Z.of_nat k) ≠ 0); [|lia].
      intros E. apply Hin. rewrite E. by eapply list_elem_of_lookup_2.
Qed.

(** The terms stay below the triangular numbers. *)
Lemma recemans_run_triangular (k : nat) :
  ∀ i x,
    snd (fold_left recemans_step (seqZ 1 (Z.of_nat k)) (0, [0])) !! i = Some x →
    2 * x ≤ Z.of_nat i * (Z.of_nat i + 1).
Proof.
  induction k as [|k IH]; intros i x Hx.
  - destruct i; [|done]. injection Hx as <-. lia.
  - rewrite recemans_run_S in Hx.
    pose proof (recemans_run_inv k) as (Hlen & Hlast & _).
    cbv zeta in Hlen, Hlast.
    destruct (fold_left _ _ _) as [a s]; simpl in *.
    destruct (decide (i < length s)%nat) as [Hlt|Hge].
    + rewrite lookup_app_l in Hx by done. by apply IH.
    + rewrite lookup_app_r in Hx by lia.
      destruct (i - length s)%nat eqn:E; [|done]. injection Hx as <-.
      pose proof (IH k a Hlast) as Ha.
      assert (i = S k) by lia. subst i.
      destruct (_ || _); nia.
Qed.

(** X1. For every integer [n], also zero or negative, [recemans_sequence n]
    has [max(1, n)] elements; it is never empty, and it is [[0]] for
    [n <= 1]. *)
Theorem recemans_sequence_length_any (n : Z) :
  Z.of_nat (length (recemans_sequence n)) = Z.max 1 n ∧
  (n ≤ 1 → recemans_sequence n = [0]).
Proof.
  split.
  - pose proof (recemans_run_inv (Z.to_nat (n - 1))) as (Hlen & _).
    cbv zeta in Hlen. unfold recemans_sequence.
    destruct (decide (1 ≤ n)).
    + replace (Z.of_nat (Z.to_nat (n - 1))) with (n - 1) in Hlen by lia. lia.
    + rewrite seqZ_nil by lia. simpl. lia.
  - intros Hn. unfold recemans_sequence. by rewrite seqZ_nil by lia.
Qed.

(** X2. A longer run extends a shorter one: for [1 <= n <= m], the first
    [n] elements of [recemans_sequence m] are [recemans_sequence n]. *)
Theorem recemans_sequence_prefix (n m : Z) :
  1 ≤ n ≤ m →
  take (Z.to_nat n) (recemans_sequence m) = recemans_sequence n.
Proof.
  intros Hnm. unfold recemans_sequence.
  pose proof (recemans_run_prefix (Z.to_nat (n - 1)) (Z.to_nat (m - n))) as H.
  replace (Z.of_nat (Z.to_nat (n - 1))) with (n - 1) in H by lia.
  replace (Z.of_nat (Z.to_nat (n - 1) + Z.to_nat (m - n))) with (m - 1) in H by lia.
  replace (S (Z.to_nat (n - 1))) with (Z.to_nat n) in H by lia.
  done.
Qed.

Lemma recemans_sequence_prefix_witness :
  1 ≤ 5 ≤ 12 ∧
  take (Z.to_nat 5) (recemans_sequence 12) = recemans_sequence 5.
Proof. split; [lia|]. apply (recemans_sequence_prefix 5 12); lia. Defined.

(** X3. The value 0 occurs at index 0 only: every later element of
    [recemans_sequence n] is positive. *)
Theorem recemans_sequence_positive (n : Z) (i : nat) (x : Z) :
  (0 < i)%nat → recemans_sequence n !! i = Some x → 0 < x.
Proof.
  intros Hi Hx. unfold recemans_sequence in Hx.
  destruct (decide (1 ≤ n)).
  - apply (recemans_run_positive (Z.to_nat (n - 1)) i x Hi).
    by replace (Z.of_nat (Z.to_nat (n - 1))) with (n - 1) by lia.
  - rewrite seqZ_nil in Hx by lia. destruct i; [lia|done].
Qed.

Lemma recemans_sequence_positive_witness :
  (0 < 4)%nat ∧ recemans_sequence 8 !! 4%nat = Some 2 ∧ 0 < 2.
Proof.
  split; [lia|]. split; [vm_compute; reflexivity|].
  apply (recemans_sequence_positive 8 4 2); [lia|vm_compute; reflexivity].
Defined.

(** X4. Element [i] of [recemans_sequence n] is at most the triangular
    number [i * (i + 1) / 2]. *)
Theorem recemans_sequence_triangular (n : Z) (i : nat) (x : Z) :
  recemans_sequence n !! i = Some x →
  2 * x ≤ Z.of_nat i * (Z.of_nat i + 1).
Proof.
  intros Hx. unfold recemans_sequence in Hx.
  destruct (decide (1 ≤ n)).
  - apply (recemans_run_triangular (Z.to_nat (n - 1)) i x).
    by replace (Z.of_nat (Z.to_nat (n - 1))) with (n - 1) by lia.
  - rewrite seqZ_nil in Hx by lia. destruct i; [|done].
    injection Hx as <-. lia.
Qed.

Lemma recemans_sequence_triangular_witness :
  recemans_sequence 8 !! 7%nat = Some 20 ∧
  2 * 20 ≤ Z.of_nat 7 * (Z.of_nat 7 + 1).
Proof.
  split; [vm_compute; reflexivity|].
  apply (recemans_sequence_triangular 8 7 20). vm_compute; reflexivity.
Defined.

(** ** What the float operations can return *)

Lemma shr_m_nonneg (r : shr_record) (e n : Z) :
  0 ≤ shr_m r → 0 ≤ shr_m (fst (shr r e n)).
Proof.
  intros Hm. destruct (decide (0 ≤ n)) as [Hn|Hn].
  - destruct (shr_m_div r e n Hm Hn) as [-> _]. apply Z.div_pos; lia.
  - destruct n; try lia. done.
Qed.

Lemma shr_record_of_loc_m (m : Z) (l : location) :
  shr_m (shr_record_of_loc m l) = m.
Proof. by destruct l as [|[]]. Qed.

(** Rounding a non-negative mantissa gives a zero, a finite number or an
    infinity of the given sign, never a NaN. *)
Lemma binary_round_aux_sign (s : bool) (m e : Z) (l : location) :
  0 ≤ m →
  match binary_round_aux prec emax s m e l with
  | S754_zero s' | S754_infinity s' | S754_finite s' _ _ => s' = s
  | S754_nan => False
  end.
Proof.
  intros Hm. unfold binary_round_aux, shr_fexp.
  pose proof (shr_m_nonneg (shr_record_of_loc m l) e
                (fexp prec emax (Zdigits2 m + e) - e)) as H1.
  rewrite shr_record_of_loc_m in H1. specialize (H1 Hm).
  destruct (shr (shr_record_of_loc m l) e _) as [mrs' e']. simpl in H1.
  pose proof (round_nearest_even_range (shr_m mrs') (loc_of_shr_record mrs')) as Hr.
  set (m2 := round_nearest_even _ _) in *.
  pose proof (shr_m_nonneg (shr_record_of_loc m2 loc_Exact) e'
                (fexp prec emax (Zdigits2 m2 + e') - e')) as H2.
  rewrite shr_record_of_loc_m in H2. specialize (H2 ltac:(lia)).
  destruct (shr (shr_record_of_loc m2 loc_Exact) e' _) as [mrs'' e'']. simpl in H2.
  destruct (shr_m mrs''); [done| |lia].
  by destruct (_ <=? _).
Qed.

Lemma binary_round_aux_not_nan (s : bool) (m e : Z) (l : location) :
  0 ≤ m → binary_round_aux prec emax s m e l ≠ S754_nan.
Proof.
  intros Hm E. pose proof (binary_round_aux_sign s m e l Hm) as H.
  by rewrite E in H.
Qed.

Lemma fmul_not_nan (x y : float) :
  is_finite x = true → is_finite y = true → fmul x y ≠ S754_nan.
Proof.
  destruct x as [| | |sx mx ex], y as [| | |sy my ey]; try done. intros _ _.
  apply binary_round_aux_not_nan. lia.
Qed.

(** Conversion of an integer of 54 bits or more: the exponent of the result
    is the position of the leading bit less 52 or 51, and the result is an
    infinity when that passes 971. *)
Lemma binary_round_wide (s : bool) (p : positive) :
  2 ^ 53 ≤ Z.pos p →
  ∃ m e, Z.log2 (Z.pos p) - 52 ≤ e ≤ Z.log2 (Z.pos p) - 51 ∧
         2 ^ 52 ≤ Z.pos m < 2 ^ 53 ∧
         binary_round prec emax s p 0
         = if e <=? 971 then S754_finite s m e else S754_infinity s.
Proof.
  intros Hp.
  assert (Hl : 53 ≤ Z.log2 (Z.pos p)) by (apply Z.log2_le_pow2; lia).
  pose proof (Z.log2_spec (Z.pos p) ltac:(lia)) as [Hlo Hhi].
  set (l := Z.log2 (Z.pos p)) in *.
  unfold binary_round.
  change (Z.pos (digits2_pos p)) with (Zdigits2 (Z.pos p)).
  rewrite Zdigits2_log2 by lia. fold l.
  replace (fexp prec emax (l + 1 + 0)) with (l - 52)
    by (unfold fexp, emin, prec, emax; lia).
  unfold shl_align. destruct (l - 52 - 0) as [|q|q] eqn:Hq; try lia.
  unfold binary_round_aux, shr_fexp.
  rewrite Zdigits2_log2 by lia. fold l.
  replace (fexp prec emax (l + 1 + 0) - 0) with (l - 52)
    by (unfold fexp, emin, prec, emax; lia).
  destruct (shr_m_div (shr_record_of_loc (Z.pos p) loc_Exact) 0 (l - 52))
    as [Hm1 He1]; [simpl; lia|lia|].
  destruct (shr _ 0 (l - 52)) as [mrs' e'] eqn:Hshr. simpl in Hm1, He1.
  rewrite Z.add_0_l in He1. subst e'.
  assert (Hm1' : 2 ^ 52 ≤ shr_m mrs' < 2 ^ 53).
  { rewrite Hm1.
    assert (Hpow : 0 < 2 ^ (l - 52)) by (apply Z.pow_pos_nonneg; lia).
    split.
    - apply Z.div_le_lower_bound; [lia|].
      rewrite <- Z.pow_add_r by lia. by replace (l - 52 + 52) with l by lia.
    - apply Z.div_lt_upper_bound; [lia|].
      rewrite <- Z.pow_add_r by lia.
      by replace (l - 52 + 53) with (Z.succ l) by lia. }
  pose proof (round_nearest_even_range (shr_m mrs') (loc_of_shr_record mrs')) as Hr.
  set (m2 := round_nearest_even (shr_m mrs') (loc_of_shr_record mrs')) in *.
  unfold shr_record_of_loc.
  destruct (decide (m2 = 2 ^ 53)) as [E|NE].
  - rewrite E.
    replace (fexp prec emax (Zdigits2 (2 ^ 53) + (l - 52)) - (l - 52)) with 1
      by (change (Zdigits2 (2 ^ 53)) with 54; unfold fexp, emin, prec, emax; lia).
    cbn [shr SpecFloat.iter_pos].
    change (shr_m (shr_1 _)) with (Z.pos 4503599627370496).
    exists 4503599627370496%positive, (l - 52 + 1). split; [lia|]. split; [lia|done].
  - assert (Hlog : Z.log2 m2 = 52) by (apply Z.log2_unique; lia).
    rewrite Zdigits2_log2 by lia. rewrite Hlog.
    replace (fexp prec emax (52 + 1 + (l - 52)) - (l - 52)) with 0
      by (unfold fexp, emin, prec, emax; lia).
    cbn [shr shr_m]. destruct m2 as [|m2|m2]; try lia.
    exists m2, (l - 52). split; [lia|]. split; [lia|done].
Qed.

(** A conversion either overflows or gives a finite value, which is zero
    only for zero. *)
Lemma float_of_int_cases (z : Z) :
  float_of_int z = Raise OverflowError ∨
  ∃ x, float_of_int z = Ok x ∧ is_finite x = true ∧
       is_zero x = bool_decide (z = 0).
Proof.
  destruct (decide (Z.abs z < 2 ^ 53)) as [Hs|Hs].
  - right. rewrite float_of_int_small by done. eexists. split; [done|].
    split; [by destruct z|apply exact_float_is_zero].
  - unfold float_of_int. destruct z as [|p|p]; [done| |]; simpl in Hs.
    + destruct (binary_round_wide false p) as (m & e & _ & _ & E); [lia|].
      change (binary_normalize prec emax (Z.pos p) 0 false)
        with (binary_round prec emax false p 0). rewrite E.
      destruct (e <=? 971); [right; by eexists|by left].
    + destruct (binary_round_wide true p) as (m & e & _ & _ & E); [lia|].
      change (binary_normalize prec emax (Z.neg p) 0 false)
        with (binary_round prec emax true p 0). rewrite E.
      destruct (e <=? 971); [right; by eexists|by left].
Qed.

(** From [2^1024] on, a conversion overflows. *)
Lemma float_of_int_overflow (z : Z) :
  2 ^ 1024 ≤ Z.abs z → float_of_int z = Raise OverflowError.
Proof.
  intros Hz. unfold float_of_int.
  assert (H53 : 2 ^ 53 < 2 ^ 1024) by (apply Z.pow_lt_mono_r; lia).
  destruct z as [|p|p]; simpl in Hz; [lia| |].
  all: assert (Hl : 1024 ≤ Z.log2 (Z.pos p)) by (apply Z.log2_le_pow2; lia).
  - destruct (binary_round_wide false p) as (m & e & He & _ & E); [lia|].
    change (binary_normalize prec emax (Z.pos p) 0 false)
      with (binary_round prec emax false p 0). rewrite E.
    destruct (Z.leb_spec e 971); [lia|done].
  - destruct (binary_round_wide true p) as (m & e & He & _ & E); [lia|].
    change (binary_normalize prec emax (Z.neg p) 0 false)
      with (binary_round prec emax true p 0). rewrite E.
    destruct (Z.leb_spec e 971); [lia|done].
Qed.

(** A converted integer is zero or a normal double with a non-negative
    or slightly negative exponent. *)
Lemma float_of_int_normal (z : Z) (x : float) :
  float_of_int z = Ok x →
  (z = 0 ∧ x = fzero) ∨
  (z ≠ 0 ∧ ∃ m e, x = S754_finite (z <? 0) m e ∧
                  2 ^ 52 ≤ Z.pos m < 2 ^ 53 ∧ -52 ≤ e ≤ 971).
Proof.
  destruct (decide (Z.abs z < 2 ^ 53)) as [Hs|Hs].
  - rewrite float_of_int_small by done. intros [= <-].
    destruct z as [|p|p]; [by left|right..]; (split; [done|]); simpl in Hs.
    all: pose proof (log2_small (Z.pos p) ltac:(lia)).
    all: pose proof (normalized_mantissa (Z.pos p) ltac:(lia)).
    all: eexists _, _; split; [done|]; change (Z.abs _) with (Z.pos p).
    all: rewrite Z2Pos.id by lia; lia.
  - unfold float_of_int. destruct z as [|p|p]; [done| |]; simpl in Hs.
    all: assert (Hl : 53 ≤ Z.log2 (Z.pos p)) by (apply Z.log2_le_pow2; lia).
    + destruct (binary_round_wide false p) as (m & e & He & Hm & E); [lia|].
      change (binary_normalize prec emax (Z.pos p) 0 false)
        with (binary_round prec emax false p 0). rewrite E.
      destruct (Z.leb_spec e 971); [|done]. intros [= <-]. right.
      split; [done|]. eexists _, _. split; [done|]. lia.
    + destruct (binary_round_wide true p) as (m & e & He & Hm & E); [lia|].
      change (binary_normalize prec emax (Z.neg p) 0 false)
        with (binary_round prec emax true p 0). rewrite E.
      destruct (Z.leb_spec e 971); [|done]. intros [= <-]. right.
      split; [done|]. eexists _, _. split; [done|]. lia.
Qed.

(** Halving and then doubling a converted integer gives it back. *)
Lemma fmul_two_half_of_int (z : Z) (x : float) :
  float_of_int z = Ok x → fmul ftwo (fmul fhalf x) = x.
Proof.
  intros Hx. apply float_of_int_normal in Hx as [[_ ->]|(_ & m & e & -> & Hm & He)].
  - done.
  - change fhalf with (S754_finite false 4503599627370496 (-1 - 52)).
    rewrite fmul_pow2 by lia.
    change ftwo with (S754_finite false 4503599627370496 (1 - 52)).
    rewrite fmul_pow2 by lia. f_equal. lia.
Qed.

Lemma float_of_int_finite (z : Z) (x : float) :
  float_of_int z = Ok x → is_finite x = true.
Proof.
  intros Hx.
  by apply float_of_int_normal in Hx as [[_ ->]|(_ & m & e & -> & _)].
Qed.

Lemma float_of_int_nonzero (z : Z) (x : float) :
  z ≠ 0 → float_of_int z = Ok x → is_zero x = false.
Proof.
  intros Hz Hx.
  by apply float_of_int_normal in Hx as [[? _]|(_ & m & e & -> & _)].
Qed.

(** ** The exceptions of the arc interpolator *)

Lemma only_raises_bind {A B : Type} (e : exn) (r : result A)
    (k : A → result B) :
  only_raises e r → (∀ a, r = Ok a → only_raises e (k a)) →
  only_raises e (r ≫= k).
Proof. destruct r as [a|e']; simpl; [intros _ H; by apply H|done]. Qed.

Lemma only_raises_for_each {A B : Type} (e : exn) (f : A → result B)
    (l : list A) :
  Forall (λ x, only_raises e (f x)) l → only_raises e (for_each f l).
Proof.
  induction 1 as [|x l Hx _ IH]; [done|]. cbn [for_each].
  apply only_raises_bind; [done|]. intros y _.
  apply only_raises_bind; [done|]. by intros ys _.
Qed.

Lemma float_of_int_only_overflow (z : Z) :
  only_raises OverflowError (float_of_int z).
Proof. unfold float_of_int. by destruct (binary_normalize _ _ _ _ _). Qed.

Lemma int_of_float_only_overflow (x : float) :
  x ≠ S754_nan → only_raises OverflowError (int_of_float x).
Proof. by destruct x. Qed.

Section ArcExceptions.
Variable np_cos np_sin : float → float.

Lemma arc_point_only_overflow (a0 a1 : Z) (st tf u r : float) (k : Z)
    (flipped : bool) (i : Z) :
  0 ≤ i < k →
  only_raises OverflowError
    (arc_point np_cos np_sin a0 a1 st tf u r k flipped i).
Proof.
  intros Hi. unfold arc_point.
  apply only_raises_bind; [apply float_of_int_only_overflow|]. intros fk Hfk.
  apply only_raises_bind; [apply float_of_int_only_overflow|]. intros ft _.
  rewrite py_truediv_Ok, bind_Ok by (eapply float_of_int_nonzero; [|done]; lia).
  apply only_raises_bind; [apply float_of_int_only_overflow|]. intros fd _.
  rewrite Hfk, bind_Ok.
  rewrite py_truediv_Ok, bind_Ok by (eapply float_of_int_nonzero; [|done]; lia).
  apply only_raises_bind; [apply float_of_int_only_overflow|]. intros fi _.
  apply only_raises_bind; [apply float_of_int_only_overflow|]. by intros fa0 _.
Qed.

(** X5. Whatever its arguments, [interpolate_arcs] either returns or raises
    [OverflowError]: the two divisions by [k] are never by zero, and [int]
    is never applied to a NaN. *)
Theorem interpolate_arcs_only_overflow (a0 a1 : Z) (st tf : float)
    (resolution : Z) :
  only_raises OverflowError
    (interpolate_arcs np_cos np_sin a0 a1 st tf resolution).
Proof.
  unfold interpolate_arcs.
  apply only_raises_bind; [apply float_of_int_only_overflow|]. intros fs _.
  apply only_raises_bind; [apply float_of_int_only_overflow|]. intros fd Hfd.
  apply only_raises_bind; [apply float_of_int_only_overflow|]. intros fres Hfres.
  rewrite (fmul_two_half_of_int _ _ Hfd).
  apply only_raises_bind.
  { apply int_of_float_only_overflow, fmul_not_nan;
      by eapply float_of_int_finite. }
  intros k _. apply only_raises_for_each, Forall_seqZ.
  intros i Hi. apply arc_point_only_overflow. lia.
Qed.

(** X6. [interpolate_arcs] raises [OverflowError] as soon as [a0 + a1],
    [a1 - a0] or the resolution reaches [2^1024] in magnitude. *)
Theorem interpolate_arcs_overflows (a0 a1 : Z) (st tf : float)
    (resolution : Z) :
  2 ^ 1024 ≤ Z.abs (a0 + a1) ∨ 2 ^ 1024 ≤ Z.abs (a1 - a0) ∨
    2 ^ 1024 ≤ Z.abs resolution →
  interpolate_arcs np_cos np_sin a0 a1 st tf resolution = Raise OverflowError.
Proof.
  intros H. unfold interpolate_arcs.
  destruct H as [H|[H|H]].
  - rewrite (float_of_int_overflow (a0 + a1) H). done.
  - destruct (float_of_int_cases (a0 + a1)) as [->|(fs & -> & _)]; [done|].
    rewrite bind_Ok.
    rewrite (float_of_int_overflow (Z.abs (a1 - a0)))
      by (rewrite Z.abs_idemp; exact H).
    done.
  - destruct (float_of_int_cases (a0 + a1)) as [->|(fs & -> & _)]; [done|].
    rewrite bind_Ok.
    destruct (float_of_int_cases (Z.abs (a1 - a0))) as [->|(fd & -> & _)];
      [done|].
    rewrite bind_Ok. rewrite (float_of_int_overflow resolution H). done.
Qed.

(** X7. With a resolution of zero or less [interpolate_arcs] produces no
    point: it returns the empty list, unless a conversion overflows. *)
Theorem interpolate_arcs_no_resolution (a0 a1 : Z) (st tf : float)
    (resolution : Z) :
  resolution ≤ 0 →
  interpolate_arcs np_cos np_sin a0 a1 st tf resolution = Ok [] ∨
  interpolate_arcs np_cos np_sin a0 a1 st tf resolution = Raise OverflowError.
Proof.
  intros Hres. unfold interpolate_arcs.
  destruct (float_of_int_cases (a0 + a1)) as [->|(fs & -> & _)]; [by right|].
  rewrite bind_Ok.
  destruct (float_of_int (Z.abs (a1 - a0))) as [fd|e] eqn:Hfd.
  2: { pose proof (float_of_int_only_overflow (Z.abs (a1 - a0))) as H.
       rewrite Hfd in H. simpl in H. subst e. by right. }
  rewrite bind_Ok.
  destruct (float_of_int resolution) as [fres|e] eqn:Hfres.
  2: { pose proof (float_of_int_only_overflow resolution) as H.
       rewrite Hfres in H. simpl in H. subst e. by right. }
  rewrite bind_Ok, (fmul_two_half_of_int _ _ Hfd).
  assert (Hk : int_of_float (fmul fd fres) = Raise OverflowError ∨
               ∃ k, int_of_float (fmul fd fres) = Ok k ∧ k ≤ 0).
  { apply float_of_int_normal in Hfd as [[_ ->]|(Hd & md & ed & -> & _)];
      apply float_of_int_normal in Hfres as [[_ ->]|(Hr & mr & er & -> & _)].
    - right. by exists 0.
    - right. by exists 0.
    - right. by exists 0.
    - replace (Z.abs (a1 - a0) <? 0) with false by (symmetry; apply Z.ltb_ge; lia).
      replace (resolution <? 0) with true by (symmetry; apply Z.ltb_lt; lia).
      unfold fmul, SFmul. cbn [xorb].
      pose proof (binary_round_aux_sign true (Z.pos (md * mr)) (ed + er)
                    loc_Exact ltac:(lia)) as Hs.
      destruct (binary_round_aux _ _ _ _ _ _) as [s|s| |s m e]; [..|done|].
      + right. by exists 0.
      + by left.
      + subst s. right. eexists. split; [done|].
        assert (0 ≤ (if 0 <=? e then Z.shiftl (Z.pos m) e
                     else Z.shiftr (Z.pos m) (- e)))
          by (destruct (0 <=? e);
              [apply Z.shiftl_nonneg|apply Z.shiftr_nonneg]; lia).
        unfold cond_Zopp. lia. }
  destruct Hk as [->|(k & -> & Hk)]; [by right|].
  rewrite bind_Ok, seqZ_nil by done. by left.
Qed.
End ArcExceptions.

Lemma interpolate_arcs_overflows_witness :
  (2 ^ 1024 ≤ Z.abs (0 + 5) ∨ 2 ^ 1024 ≤ Z.abs (5 - 0) ∨
     2 ^ 1024 ≤ Z.abs (2 ^ 1024)) ∧
  interpolate_arcs taylor_cos taylor_sin 0 5 fzero fhalf (2 ^ 1024)
  = Raise OverflowError.
Proof.
  split; [right; right; by vm_compute|].
  apply (interpolate_arcs_overflows taylor_cos taylor_sin 0 5 fzero fhalf
           (2 ^ 1024)).
  right; right; by vm_compute.
Defined.

Lemma interpolate_arcs_no_resolution_witness :
  -2 ≤ 0 ∧
  (interpolate_arcs taylor_cos taylor_sin 0 3 fzero fhalf (-2) = Ok [] ∨
   interpolate_arcs taylor_cos taylor_sin 0 3 fzero fhalf (-2)
   = Raise OverflowError).
Proof.
  split; [lia|].
  apply (interpolate_arcs_no_resolution taylor_cos taylor_sin 0 3 fzero fhalf
           (-2)). lia.
Defined.

(** ** More on the rotation solver and the tube extruder *)

Lemma fmul_nan_l (x : float) : fmul fnan x = fnan.
Proof. by destruct x. Qed.

Lemma fadd_nan_l (x : float) : fadd fnan x = fnan.
Proof. by destruct x. Qed.

Lemma fdiv_nan_r (x : float) : fdiv x fnan = fnan.
Proof. by destruct x. Qed.

Lemma np_dot_nan (a b : vec3) : has_nan a ∨ has_nan b → np_dot a b = fnan.
Proof.
  destruct a as [a0 a1 a2], b as [b0 b1 b2]. unfold has_nan, np_dot; simpl.
  intros [ [-> | [-> | ->] ] | [-> | [-> | ->] ] ];
    by rewrite ?fmul_nan_l, ?fmul_nan_r, ?fadd_nan_l, ?fadd_nan_r.
Qed.

(** X8. A NaN in any coordinate of either vector makes
    [rotation_matrix_from_vectors] return the matrix of nine NaNs. *)
Theorem rotation_matrix_nan (a b : vec3) :
  has_nan a ∨ has_nan b →
  rotation_matrix_from_vectors a b = Mat3 nan_vertex nan_vertex nan_vertex.
Proof.
  intros H. unfold rotation_matrix_from_vectors. rewrite (np_dot_nan a b H).
  unfold mat_add, vec_add, mat_map, vec_map, nan_vertex;
    cbn [row0 row1 row2 c0 c1 c2].
  by rewrite !fadd_nan_r, !fdiv_nan_r, !fadd_nan_r.
Qed.

Lemma rotation_matrix_nan_witness :
  (has_nan (Vec3 fone fnan fzero) ∨ has_nan (Vec3 fzero fzero fone)) ∧
  rotation_matrix_from_vectors (Vec3 fone fnan fzero) (Vec3 fzero fzero fone)
  = Mat3 nan_vertex nan_vertex nan_vertex.
Proof.
  split; [left; right; left; reflexivity|].
  apply (rotation_matrix_nan (Vec3 fone fnan fzero) (Vec3 fzero fzero fone)).
  left; right; left; reflexivity.
Defined.

Lemma py_getitem_short {A : Type} (l : list A) :
  (length l < 2)%nat →
  py_getitem l (-1) = Raise IndexError ∨
  ∃ x, py_getitem l (-1) = Ok x ∧ py_getitem l (-2) = Raise IndexError.
Proof.
  intros Hl. destruct l as [|x [|y l]]; simpl in Hl; [by left| |lia].
  right. by exists x.
Qed.

Lemma mod_succ_differs (j n : Z) : 0 ≤ j < n → 2 ≤ n → (j + 1) `mod` n ≠ j.
Proof.
  intros Hj Hn. destruct (decide (j + 1 < n)).
  - rewrite Z.mod_small by lia. lia.
  - replace (j + 1) with n by lia. rewrite Z.mod_same by lia. lia.
Qed.

Section TubeEdges.
Variable np_cos np_sin : float → float.

(** X9. On a curve of fewer than two points [tube_along_curve] raises
    [IndexError] (for a resolution below [2^1023]). *)
Theorem tube_along_curve_short_curve (points : list vec3) (radius : float)
    (resolution offset : Z) :
  (length points < 2)%nat → resolution < 2 ^ 1023 →
  tube_along_curve np_cos np_sin points radius resolution offset
  = Raise IndexError.
Proof.
  intros Hm Hn. unfold tube_along_curve.
  destruct (circle_xy_Ok np_cos np_sin radius resolution)
    as (circle & -> & _); [done|].
  rewrite bind_Ok.
  by destruct (py_getitem_short points Hm) as [->|(x & -> & ->)].
Qed.

(** X10. With a resolution of [2^1024] or more [tube_along_curve] raises
    [OverflowError], whatever the curve: the circle is built first. *)
Theorem tube_along_curve_overflow (points : list vec3) (radius : float)
    (resolution offset : Z) :
  2 ^ 1024 ≤ resolution →
  tube_along_curve np_cos np_sin points radius resolution offset
  = Raise OverflowError.
Proof.
  intros Hn. unfold tube_along_curve, circle_xy.
  assert (0 < 2 ^ 1024) by (apply Z.pow_pos_nonneg; lia).
  rewrite seqZ_cons by lia. cbn [for_each].
  rewrite (float_of_int_small 0), bind_Ok by lia.
  rewrite (float_of_int_overflow resolution) by lia. done.
Qed.

(** X12. The ring at the last point is the ring at the point before it,
    moved: both add the same rotated circle to their point. *)
Theorem tube_along_curve_end_ring (pre : list vec3) (p q : vec3)
    (radius : float) (resolution offset : Z) :
  resolution < 2 ^ 1023 →
  ∃ vertex_list face_list w,
    tube_along_curve np_cos np_sin (pre ++ [p; q]) radius resolution offset
      = Ok (vertex_list, face_list) ∧
    length w = Z.to_nat resolution ∧
    drop (length pre * Z.to_nat resolution) vertex_list
      = (vec_add p <$> w) ++ (vec_add q <$> w).
Proof.
  intros Hn. unfold tube_along_curve.
  destruct (circle_xy_Ok np_cos np_sin radius resolution)
    as (circle & -> & Hc); [done|].
  rewrite bind_Ok.
  assert (H1 : py_getitem (pre ++ [p; q]) (-1) = Ok q).
  { unfold py_getitem. cbv zeta. change (-1 <? 0) with true. cbv iota.
    rewrite length_app. simpl length.
    destruct (Z.ltb_spec (-1 + Z.of_nat (length pre + 2)) 0); [lia|].
    rewrite lookup_app_r by lia.
    by replace (Z.to_nat (-1 + Z.of_nat (length pre + 2)) - length pre)%nat
      with 1%nat by lia. }
  assert (H2 : py_getitem (pre ++ [p; q]) (-2) = Ok p).
  { unfold py_getitem. cbv zeta. change (-2 <? 0) with true. cbv iota.
    rewrite length_app. simpl length.
    destruct (Z.ltb_spec (-2 + Z.of_nat (length pre + 2)) 0); [lia|].
    rewrite lookup_app_r by lia.
    by replace (Z.to_nat (-2 + Z.of_nat (length pre + 2)) - length pre)%nat
      with 0%nat by lia. }
  rewrite H1, H2, !bind_Ok.
  set (R := rotation_matrix_from_vectors
              (vec_div (vec_sub q p) (np_norm (vec_sub q p)))
              (Vec3 fzero fzero fone)).
  exists (rings circle (pre ++ [p; q])
            ++ ring circle q (vec_sub q p)),
         (tube_faces (Z.of_nat (length (pre ++ [p; q]))) resolution offset),
         ((λ c, vec_mat c R) <$> circle).
  split; [done|]. split; [by rewrite length_fmap|].
  rewrite rings_app. cbn [rings]. rewrite app_nil_r, <- app_assoc.
  rewrite drop_app_length'
    by (rewrite length_rings, length_app, Hc; simpl; lia).
  unfold ring. fold R. by rewrite <- !list_fmap_compose.
Qed.

(** X18. For a resolution below [2^1023], [circle_xy] returns
    [max(0, resolution)] points, all of them in the plane z = +0.0. *)
Theorem circle_xy_flat (radius : float) (resolution : Z) :
  resolution < 2 ^ 1023 →
  ∃ circle,
    circle_xy np_cos np_sin radius resolution = Ok circle ∧
    Z.of_nat (length circle) = Z.max 0 resolution ∧
    Forall (λ p, c2 p = fzero) circle.
Proof.
  intros Hn. unfold circle_xy.
  match goal with |- context [for_each ?f ?l] =>
    destruct (for_each_Forall2 (λ _ p, c2 p = fzero) f l)
      as (circle & Hc & HF) end.
  { apply Forall_seqZ. intros i Hi.
    destruct (float_of_int_Ok i) as (fi & -> & _); [lia|].
    destruct (float_of_int_Ok resolution) as (fn & -> & Hz & _); [lia|].
    rewrite bool_decide_eq_false_2 in Hz by lia.
    rewrite !bind_Ok, py_truediv_Ok, bind_Ok by done.
    by eexists. }
  exists circle. split; [done|]. split.
  - apply for_each_length in Hc. rewrite Hc, length_seqZ. lia.
  - clear Hc. induction HF; by constructor.
Qed.
End TubeEdges.

Lemma circle_xy_flat_witness :
  8 < 2 ^ 1023 ∧
  ∃ circle,
    circle_xy taylor_cos taylor_sin fone 8 = Ok circle ∧
    Z.of_nat (length circle) = Z.max 0 8 ∧
    Forall (λ p, c2 p = fzero) circle.
Proof.
  split; [by vm_compute|].
  apply (circle_xy_flat taylor_cos taylor_sin fone 8). by vm_compute.
Defined.

Lemma tube_along_curve_short_curve_witness :
  (length [Vec3 fone fone fone] < 2)%nat ∧ 8 < 2 ^ 1023 ∧
  tube_along_curve taylor_cos taylor_sin [Vec3 fone fone fone] fone 8 0
  = Raise IndexError.
Proof.
  split; [simpl; lia|]. split; [by vm_compute|].
  apply (tube_along_curve_short_curve taylor_cos taylor_sin
           [Vec3 fone fone fone] fone 8 0); [simpl; lia|by vm_compute].
Defined.

Lemma tube_along_curve_overflow_witness :
  2 ^ 1024 ≤ 2 ^ 1024 ∧
  tube_along_curve taylor_cos taylor_sin [] fone (2 ^ 1024) 0
  = Raise OverflowError.
Proof.
  split; [lia|].
  apply (tube_along_curve_overflow taylor_cos taylor_sin [] fone (2 ^ 1024) 0).
  lia.
Defined.

Lemma tube_along_curve_end_ring_witness :
  3 < 2 ^ 1023 ∧
  ∃ vertex_list face_list w,
    tube_along_curve taylor_cos taylor_sin
      ([Vec3 fzero fzero fzero] ++ [Vec3 fzero fzero fone; Vec3 fone fzero ftwo])
      fone 3 0 = Ok (vertex_list, face_list) ∧
    length w = Z.to_nat 3 ∧
    drop (length [Vec3 fzero fzero fzero] * Z.to_nat 3) vertex_list
      = (vec_add (Vec3 fzero fzero fone) <$> w)
        ++ (vec_add (Vec3 fone fzero ftwo) <$> w).
Proof.
  split; [by vm_compute|].
  apply (tube_along_curve_end_ring taylor_cos taylor_sin
           [Vec3 fzero fzero fzero] (Vec3 fzero fzero fone)
           (Vec3 fone fzero ftwo) fone 3 0).
  by vm_compute.
Defined.

(** X11. With a resolution of 2 or more no triangle is degenerate: the
    three indices of every face are pairwise distinct. *)
Theorem tube_faces_distinct (m n offset : Z) :
  2 ≤ n → Forall face_distinct (tube_faces m n offset).
Proof.
  intros Hn. apply Forall_forall. intros f Hf. unfold tube_faces in Hf.
  apply list_elem_of_bind in Hf as (i & Hf & Hi).
  apply list_elem_of_bind in Hf as (j & Hf & Hj).
  apply elem_of_seqZ in Hj. cbv zeta in Hf.
  pose proof (mod_succ_differs j n ltac:(lia) Hn) as Hd.
  pose proof (Z.mod_pos_bound (j + 1) n ltac:(lia)) as Hb.
  assert (Hj0 : (j + 0) `mod` n = j) by (rewrite Z.add_0_r, Z.mod_small; lia).
  apply elem_of_cons in Hf as [->|Hf];
    [|apply list_elem_of_singleton in Hf as ->].
  all: unfold face_distinct, unravel; rewrite Hj0; nia.
Qed.

Lemma tube_faces_distinct_witness :
  2 ≤ 3 ∧ Forall face_distinct (tube_faces 4 3 10).
Proof. split; [lia|]. apply (tube_faces_distinct 4 3 10). lia. Defined.

(** X15. No vertex of the tube is left out of the faces: on at least two
    points and with a resolution of 1 or more, every index between
    [1 + offset] and [m * n + offset] occurs in a face. *)
Theorem tube_faces_cover (m n offset v : Z) :
  2 ≤ m → 1 ≤ n → 1 + offset ≤ v ≤ m * n + offset →
  ∃ f, f ∈ tube_faces m n offset ∧ face_has v f.
Proof.
  intros Hm Hn Hv.
  set (w := v - 1 - offset).
  pose proof (Z.div_mod w n ltac:(lia)) as Hw.
  pose proof (Z.mod_pos_bound w n ltac:(lia)) as Hj.
  assert (Hi : 0 ≤ w `div` n < m).
  { split; [apply Z.div_pos; lia|apply Z.div_lt_upper_bound; nia]. }
  set (i := w `div` n) in *. set (j := w `mod` n) in *.
  assert (Hj0 : (j + 0) `mod` n = j) by (rewrite Z.add_0_r, Z.mod_small; lia).
  destruct (decide (i < m - 1)) as [Hlt|Hge].
  - exists (unravel n offset i j 0 0, unravel n offset i j 1 1,
            unravel n offset i j 1 0).
    split.
    + unfold tube_faces. apply list_elem_of_bind. exists i.
      split; [|apply elem_of_seqZ; lia].
      apply list_elem_of_bind. exists j. split; [|apply elem_of_seqZ; lia].
      cbv zeta. constructor.
    + left. unfold unravel. rewrite Hj0. lia.
  - exists (unravel n offset (i - 1) j 0 0, unravel n offset (i - 1) j 1 1,
            unravel n offset (i - 1) j 1 0).
    split.
    + unfold tube_faces. apply list_elem_of_bind. exists (i - 1).
      split; [|apply elem_of_seqZ; lia].
      apply list_elem_of_bind. exists j. split; [|apply elem_of_seqZ; lia].
      cbv zeta. constructor.
    + right; right. unfold unravel. rewrite Hj0. lia.
Qed.

Lemma tube_faces_cover_witness :
  2 ≤ 3 ∧ 1 ≤ 4 ∧ 1 + 5 ≤ 17 ≤ 3 * 4 + 5 ∧
  ∃ f, f ∈ tube_faces 3 4 5 ∧ face_has 17 f.
Proof.
  split; [lia|]. split; [lia|]. split; [lia|].
  apply (tube_faces_cover 3 4 5 17); lia.
Defined.

(** ** More on the pipeline *)

Lemma concat_arcs_length (c : Z) (k : nat) (arcs : list (list vec3)) :
  Forall2 (λ i pts, Z.of_nat (length pts) = c * i) (seqZ 1 (Z.of_nat k)) arcs →
  2 * Z.of_nat (length (concat arcs)) = c * Z.of_nat k * (Z.of_nat k + 1).
Proof.
  revert arcs. induction k as [|k IH]; intros arcs H.
  - apply Forall2_nil_inv_l in H as ->. simpl. lia.
  - rewrite seqZ_S in H.
    apply Forall2_app_inv_l in H as (arcs1 & arcs2 & H1 & H2 & ->).
    apply Forall2_cons_inv_l in H2 as (pts & arcs3 & Hpts & H3 & ->).
    apply Forall2_nil_inv_l in H3 as ->.
    rewrite concat_app, length_app. simpl. rewrite app_nil_r.
    specialize (IH _ H1). lia.
Qed.

Section PipelineSizes.
Variable np_cos np_sin : float → float.
Variable str_float : float → string.

(** What a successful call of [tube_along_curve] returned. *)
Lemma tube_along_curve_inv (points : list vec3) (radius : float)
    (resolution offset : Z) (vertex_list : list vec3) (face_list : list face) :
  tube_along_curve np_cos np_sin points radius resolution offset
    = Ok (vertex_list, face_list) →
  (2 ≤ length points)%nat ∧
  length vertex_list = (length points * Z.to_nat resolution)%nat ∧
  face_list = tube_faces (Z.of_nat (length points)) resolution offset.
Proof.
  unfold tube_along_curve. intros H.
  destruct (circle_xy np_cos np_sin radius resolution) as [circle|e] eqn:Hc;
    [|done].
  apply for_each_length in Hc. rewrite length_seqZ in Hc.
  rewrite bind_Ok in H.
  destruct (decide (2 ≤ length points)%nat) as [Hm|Hm].
  - destruct (py_getitem_last_two points Hm) as (x & y & Hx & Hy).
    rewrite Hx, Hy, !bind_Ok in H. injection H as <- <-.
    split; [done|]. split; [|done].
    rewrite length_app, length_rings, length_ring, Hc. lia.
  - by destruct (py_getitem_short points ltac:(lia)) as [E|(x & E1 & E2)];
      rewrite ?E, ?E1, ?E2 in H.
Qed.

Lemma face_in_range_weaken (lo hi lo' hi' : Z) (f : face) :
  lo' ≤ lo → hi ≤ hi' → face_in_range lo hi f → face_in_range lo' hi' f.
Proof. destruct f as [[a b] c]. unfold face_in_range. lia. Qed.

(** The arcs of the whole sequence have [arc_resolution * n * (n - 1) / 2]
    points together. *)
Lemma build_curve_length (n : Z) (twist_factor : float) (arc_resolution : Z) :
  1 ≤ n < 2 ^ 20 → 1 ≤ arc_resolution < 2 ^ 20 →
  is_zero twist_factor = false →
  ∃ curve,
    build_curve np_cos np_sin (recemans_sequence n) twist_factor
      arc_resolution = Ok curve ∧
    2 * Z.of_nat (length curve) = arc_resolution * (n - 1) * n.
Proof.
  intros Hn Hres Htf. unfold build_curve.
  rewrite recemans_sequence_length by lia.
  replace (Z.of_nat (Z.to_nat n) - 1) with (Z.of_nat (Z.to_nat (n - 1))) by lia.
  match goal with |- context [for_each ?f ?l] =>
    destruct (for_each_Forall2
                (λ i pts, Z.of_nat (length pts) = arc_resolution * i) f l)
      as (arcs & -> & Harcs) end.
  { apply Forall_seqZ. intros i Hi.
    destruct (recemans_sequence_at n i ltac:(lia)) as (prev & Hprev & Hcur).
    cbv zeta in Hprev, Hcur.
    set (cur := fst (recemans_step _ i)) in Hcur.
    pose proof (recemans_sequence_bound n ltac:(lia)) as Hb.
    assert (Hbp : 0 ≤ prev ≤ (n - 1) * n)
      by (eapply Forall_lookup_1 in Hprev; eauto; done).
    assert (Hbc : 0 ≤ cur ≤ (n - 1) * n)
      by (eapply Forall_lookup_1 in Hcur; eauto; done).
    assert (Hstep : Z.abs (cur - prev) = i).
    { subst cur. simpl. destruct ((prev - i <? 0) || _); simpl; lia. }
    assert (Hstart : ∃ st, (if bool_decide (i `mod` 2 = 0) then Ok fzero
                            else py_truediv np_pi twist_factor) = Ok st).
    { case_bool_decide; [by eexists|]. rewrite py_truediv_Ok by done.
      by eexists. }
    destruct Hstart as [st ->].
    rewrite bind_Ok.
    rewrite (py_getitem_lookup _ (i - 1) prev), bind_Ok by (done || lia).
    rewrite (py_getitem_lookup _ i cur), bind_Ok by (done || lia).
    assert (H20 : 2 ^ 20 = 1048576) by done.
    assert (H53 : 2 ^ 53 = 9007199254740992) by done.
    assert (H1022 : 2 ^ 53 < 2 ^ 1022) by (apply Z.pow_lt_mono_r; lia).
    assert (H1023 : 2 ^ 53 < 2 ^ 1023) by (apply Z.pow_lt_mono_r; lia).
    destruct (interpolate_arcs_length np_cos np_sin prev cur st twist_factor
                arc_resolution) as (pts & -> & Hlen); [nia|nia|lia|nia|].
    exists pts. split; [done|]. lia. }
  rewrite bind_Ok. eexists. split; [done|].
  rewrite (concat_arcs_length _ _ _ Harcs), Z2Nat.id by lia. lia.
Qed.

(** X13. Every face of a mesh that [build_mesh] returns refers to vertices
    of that mesh: its three indices lie between 1 and the number of
    vertices, the faces of the number axis included (their offset is the
    number of vertices of the tube). *)
Theorem build_mesh_faces_valid (a : args) (vertex_list : list vec3)
    (face_list : list face) :
  build_mesh np_cos np_sin a = Ok (vertex_list, face_list) →
  Forall (face_in_range 1 (Z.of_nat (length vertex_list))) face_list.
Proof.
  unfold build_mesh. intros H.
  destruct (build_curve _ _ _ _ _) as [curve|e]; [|done].
  rewrite bind_Ok in H.
  destruct (tube_along_curve np_cos np_sin curve _ _ 0) as [[vs fl]|e] eqn:Ht;
    [|done].
  apply tube_along_curve_inv in Ht as (Hm & Hlen & ->).
  rewrite bind_Ok in H.
  pose proof (tube_faces_in_range (Z.of_nat (length curve))
                (arg_tube_resolution a) 0) as Hfl.
  destruct (arg_number_axis a).
  - destruct (float_of_int (py_min _)) as [zmin|e]; [|done].
    rewrite bind_Ok in H.
    destruct (float_of_int (py_max _)) as [zmax|e]; [|done].
    rewrite bind_Ok in H.
    destruct (tube_along_curve np_cos np_sin [_; _] _ _ _)
      as [[av af]|e] eqn:Hax; [|done].
    apply tube_along_curve_inv in Hax as (_ & Hlen' & ->).
    rewrite bind_Ok in H. injection H as <- <-.
    pose proof (tube_faces_in_range 2 (arg_tube_resolution a)
                  (Z.of_nat (length vs))) as Haf.
    simpl length in *. rewrite length_app.
    apply Forall_app; split.
    + eapply Forall_impl; [exact Hfl|]. intros f.
      apply face_in_range_weaken; nia.
    + eapply Forall_impl; [exact Haf|]. intros f.
      apply face_in_range_weaken; nia.
  - injection H as <- <-.
    eapply Forall_impl; [exact Hfl|]. intros f.
    apply face_in_range_weaken; nia.
Qed.

(** X14. The size of the mesh: for a sequence of [n] terms the curve has
    [c = arc_resolution * n * (n - 1) / 2] points, the tube has
    [c * tube_resolution] vertices and [2 * (c - 1) * tube_resolution]
    faces, and the number axis adds [2 * tube_resolution] of each. *)
Theorem build_mesh_sizes (a : args) :
  2 ≤ arg_n a < 2 ^ 20 → 1 ≤ arg_arc_resolution a < 2 ^ 20 →
  4 ≤ arg_arc_resolution a * (arg_n a - 1) * arg_n a →
  is_zero (arg_twist_factor a) = false →
  0 ≤ arg_tube_resolution a < 2 ^ 1023 →
  let axis := if arg_number_axis a then 2 else 0 in
  ∃ vertex_list face_list,
    build_mesh np_cos np_sin a = Ok (vertex_list, face_list) ∧
    2 * Z.of_nat (length vertex_list)
      = (arg_arc_resolution a * (arg_n a - 1) * arg_n a + 2 * axis)
        * arg_tube_resolution a ∧
    Z.of_nat (length face_list)
      = (arg_arc_resolution a * (arg_n a - 1) * arg_n a - 2 + axis)
        * arg_tube_resolution a.
Proof.
  intros Hn Hres Hlen Htf Htube axis. unfold build_mesh.
  destruct (build_curve_length (arg_n a) (arg_twist_factor a)
              (arg_arc_resolution a)) as (curve & -> & Hcurve);
    [lia|done|done|].
  rewrite bind_Ok.
  destruct (tube_along_curve_returns np_cos np_sin curve (arg_tube_radius a)
              (arg_tube_resolution a) 0) as (vs & fl & Ht & _); [lia|lia|].
  rewrite Ht, bind_Ok.
  apply tube_along_curve_inv in Ht as (Hm & Hvs & ->).
  subst axis. destruct (arg_number_axis a).
  - pose proof (recemans_sequence_bound (arg_n a) ltac:(lia)) as Hb.
    assert (Hne : recemans_sequence (arg_n a) ≠ []).
    { intros E. pose proof (recemans_sequence_length (arg_n a) ltac:(lia)) as Hl.
      rewrite E in Hl. simpl in Hl. lia. }
    pose proof (py_min_range _ _ _ Hne Hb) as Hmin.
    pose proof (py_max_range _ _ _ Hne Hb) as Hmax.
    assert (H20 : 2 ^ 20 = 1048576) by done.
    assert (H53 : 2 ^ 53 = 9007199254740992) by done.
    rewrite (float_of_int_small (py_min _)), bind_Ok by nia.
    rewrite (float_of_int_small (py_max _)), bind_Ok by nia.
    match goal with |- context [tube_along_curve _ _ ?pts ?r ?n ?o] =>
      destruct (tube_along_curve_returns np_cos np_sin pts r n o)
        as (av & af & Hax & _); [simpl; lia|lia|] end.
    rewrite Hax, bind_Ok.
    apply tube_along_curve_inv in Hax as (_ & Hav & ->).
    eexists _, _. split; [done|].
    rewrite !length_app, !length_tube_faces. simpl length in *. split; nia.
  - eexists _, _. split; [done|].
    rewrite length_tube_faces. split; nia.
Qed.

(** X16. With a twist factor of zero (of either sign) and at least two terms
    to draw, the run ends in [ZeroDivisionError], at the start twist of the
    first arc. *)
Theorem main_zero_twist_raises (a : args) (fs : file_system) :
  2 ≤ arg_n a → is_zero (arg_twist_factor a) = true →
  main np_cos np_sin str_float a fs = Raise ZeroDivisionError.
Proof.
  intros Hn Htf. unfold main, build_mesh, build_curve.
  rewrite recemans_sequence_length by lia.
  rewrite seqZ_cons by lia. cbn [for_each].
  rewrite bool_decide_eq_false_2 by done.
  unfold py_truediv. by rewrite Htf.
Qed.

End PipelineSizes.

Lemma build_mesh_faces_valid_witness :
  ∃ vertex_list face_list,
    build_mesh taylor_cos taylor_sin (Args 3 fone 2 fone 3 true fone "a.obj")
      = Ok (vertex_list, face_list) ∧
    Forall (face_in_range 1 (Z.of_nat (length vertex_list))) face_list.
Proof.
  destruct (build_mesh_Ok taylor_cos taylor_sin
              (Args 3 fone 2 fone 3 true fone "a.obj"))
    as (vs & fl & Hmesh); [by vm_compute..|].
  exists vs, fl. split; [exact Hmesh|].
  exact (build_mesh_faces_valid taylor_cos taylor_sin
           (Args 3 fone 2 fone 3 true fone "a.obj") vs fl Hmesh).
Defined.

Lemma build_mesh_sizes_witness :
  2 ≤ 50 < 2 ^ 20 ∧ 1 ≤ 10 < 2 ^ 20 ∧ 4 ≤ 10 * (50 - 1) * 50 ∧
  is_zero fhalf = false ∧ 0 ≤ 8 < 2 ^ 1023 ∧
  ∃ vertex_list face_list,
    build_mesh taylor_cos taylor_sin (Args 50 fhalf 10 fone 8 true fone "a.obj")
      = Ok (vertex_list, face_list) ∧
    2 * Z.of_nat (length vertex_list) = (10 * (50 - 1) * 50 + 2 * 2) * 8 ∧
    Z.of_nat (length face_list) = (10 * (50 - 1) * 50 - 2 + 2) * 8.
Proof.
  split; [lia|]. split; [lia|]. split; [lia|]. split; [reflexivity|].
  split; [by vm_compute|].
  apply (build_mesh_sizes taylor_cos taylor_sin
           (Args 50 fhalf 10 fone 8 true fone "a.obj"));
    by vm_compute.
Defined.

Lemma main_zero_twist_raises_witness :
  2 ≤ 50 ∧ is_zero (S754_zero true) = true ∧
  main taylor_cos taylor_sin str_float_hex
    (Args 50 (S754_zero true) 10 fone 8 true fone "a.obj") ∅
  = Raise ZeroDivisionError.
Proof.
  split; [lia|]. split; [reflexivity|].
  apply (main_zero_twist_raises taylor_cos taylor_sin str_float_hex
           (Args 50 (S754_zero true) 10 fone 8 true fone "a.obj") ∅);
    [simpl; lia|reflexivity].
Defined.

